(** * gosource.DeclPosition: position of the declaration of the identifier
      found at a byte index of a Go source file.

    The development embeds [DeclPosition] (package gosource) as a program in
    a small state monad over the [*Info] store that the function allocates and
    shares with its resolver.  The methods of [*Info] and [*Resolver] that the
    function calls live in other files of the package; they are taken as an
    interface ([Env]), and the statements below hold for every
    implementation of it. *)

From Stdlib Require Import ZArith Ascii String List Bool Lia.
Import ListNotations.
Open Scope Z_scope.

(** ** Data: go/token and go/ast values as [DeclPosition] sees them *)

(** [token.Pos]: an offset in the address space of a file set. *)
Definition Pos := Z.

(** [token.Position]. *)
Record Position := mkPosition {
  Filename : string;
  Offset : Z;
  Line : Z;
  Column : Z
}.

(** [*token.File]: the slice [Base, Base+Size] of the file set. *)
Record TokenFile := mkTokenFile {
  TokenFile_Name : string;
  Base : Z;
  Size : Z
}.

(** [*ast.Ident]; [Pos()] is [NamePos], [End()] is [NamePos + len(Name)]. *)
Record Ident := mkIdent {
  NamePos : Pos;
  Name : string
}.

Definition Ident_Pos (id : Ident) : Pos := NamePos id.
Definition Ident_End (id : Ident) : Pos := NamePos id + Z.of_nat (String.length (Name id)).

(** [ast.Expr]: only identifiers are told apart; any other expression is
    kept with the span go/ast reports for it. *)
Inductive Expr :=
| Expr_Ident (id : Ident)
| Expr_Other (pos end_ : Pos).

(** The declaration nodes of the type switch.  Spans that go/ast computes from
    parts that are not modelled (types, bodies, values) are carried as data. *)
Record FuncDecl := mkFuncDecl {
  FuncDecl_Name : Ident;
  FuncDecl_Pos : Pos;
  FuncDecl_End : Pos
}.

Record TypeSpec := mkTypeSpec {
  TypeSpec_Name : Ident;
  TypeSpec_End : Pos
}.

Record AssignStmt := mkAssignStmt {
  Lhs : list Expr;
  Rhs : list Expr;
  AssignStmt_Pos : Pos;
  AssignStmt_End : Pos
}.

Record Field := mkField {
  Field_Names : list Ident;
  Field_Pos : Pos;
  Field_End : Pos
}.

Record ValueSpec := mkValueSpec {
  ValueSpec_Names : list Ident;
  ValueSpec_Pos : Pos;
  ValueSpec_End : Pos
}.

(** [ast.Node], as a closed variant over the dynamic types the function
    distinguishes. *)
Inductive Node :=
| N_Ident (id : Ident)
| N_FuncDecl (t : FuncDecl)
| N_TypeSpec (t : TypeSpec)
| N_AssignStmt (t : AssignStmt)
| N_Field (t : Field)
| N_ValueSpec (t : ValueSpec)
| N_Other (pos end_ : Pos).

Definition Node_Pos (n : Node) : Pos :=
  match n with
  | N_Ident id => Ident_Pos id
  | N_FuncDecl t => FuncDecl_Pos t
  | N_TypeSpec t => Ident_Pos (TypeSpec_Name t)
  | N_AssignStmt t => AssignStmt_Pos t
  | N_Field t => Field_Pos t
  | N_ValueSpec t => ValueSpec_Pos t
  | N_Other p _ => p
  end.

Definition Node_End (n : Node) : Pos :=
  match n with
  | N_Ident id => Ident_End id
  | N_FuncDecl t => FuncDecl_End t
  | N_TypeSpec t => TypeSpec_End t
  | N_AssignStmt t => AssignStmt_End t
  | N_Field t => Field_End t
  | N_ValueSpec t => ValueSpec_End t
  | N_Other _ e => e
  end.

(** An [ast.Expr] stored into a variable of type [ast.Node]. *)
Definition Expr_Node (e : Expr) : Node :=
  match e with
  | Expr_Ident id => N_Ident id
  | Expr_Other p q => N_Other p q
  end.

Definition is_Ident (n : Node) : bool :=
  match n with N_Ident _ => true | _ => false end.

(** [*ast.File]: the position of the package keyword and the declarations. *)
Record File := mkFile {
  Package : Pos;
  Decls : list Node
}.

(** The [src interface{}] argument handed to the parser: nil (the parser
    reads [filename] itself), a string or a byte slice. *)
Inductive Src :=
| Src_nil
| Src_string (s : string)
| Src_bytes (b : list Byte.byte).

(** A Go [error] built by [fmt.Errorf] from a constant format. *)
Definition error := string.
Definition Errorf (msg : string) : error := msg.

(** The three results of [DeclPosition]; [None] is [nil]. *)
Definition Result : Type := option Position * option Position * option error.

(** ** The rest of package gosource *)

(** [NewResolver(info, path, id)]: the resolver keeps the path and the
    identifier it was made for; [info] is the store shared with the caller. *)
Record Resolver := NewResolver {
  Resolver_path : string;
  Resolver_id : Ident
}.

(** The methods [DeclPosition] calls on [info], [info.FSet] and [res].  A
    method that may update the store returns the new store. *)
Record Env := mkEnv {
  Info : Type;
  NewInfo : Info;
  AddPathFile : Info -> string -> Info * string;
  ParseFile : Info -> string -> Src -> Info * option File;
  PrintIdOffsets : Info -> File -> list string;
  FSet_File : Info -> Pos -> option TokenFile;
  PosNode : Info -> Pos -> option Node;
  PosFilePath : Info -> Pos -> string;
  ResolveDecl : Info -> Resolver -> Ident -> Info * option Node;
  FSet_Position : Info -> Pos -> Position
}.

(** Modelled from the spec: [SafeOffsetPos], whose body is in another file of
    the package.  "maps an out-of-range offset (negative, or past end-of-file) to
    the nearest valid boundary offset rather than failing"; the valid offsets
    of a file are [0 .. Size], and the position of an offset is [Base] plus
    the offset. *)
Definition clampOffset (tf : TokenFile) (offset : Z) : Z :=
  if offset <? 0 then 0
  else if Size tf <? offset then Size tf
  else offset.

Definition SafeOffsetPos (tf : TokenFile) (offset : Z) : Pos :=
  Base tf + clampOffset tf offset.

(** Modelled from the spec: [IdAssignStmtRhs], whose body is in another file of
    the package.  "the left-hand identifier at the position matching [name]":
    the index in [Lhs] of the first identifier whose text is the name, and -1
    when there is none.  Its second result is dropped by the caller. *)
Fixpoint lhsIndex (name : string) (lhs : list Expr) (i : Z) : Z :=
  match lhs with
  | [] => -1
  | Expr_Ident id2 :: rest =>
      if String.eqb (Name id2) name then i else lhsIndex name rest (i + 1)
  | Expr_Other _ _ :: rest => lhsIndex name rest (i + 1)
  end.

Definition IdAssignStmtRhs (id : Ident) (t : AssignStmt) : Z :=
  lhsIndex (Name id) (Lhs t) 0.

(** ** The monad of the function body *)

(** What a run does besides returning: calls and log lines, in order. *)
Inductive Event :=
| Ev_ParseFile (filename : string)
| Ev_PrintIdOffsets (lines : list string)
| Ev_PosNode (p : Pos)
| Ev_ResolveDecl (id : Ident)
| Ev_Logf (posp : Position).

(** How a run of the function ends. *)
Inductive Outcome :=
| Returned (r : Result)
| Panicked (msg : string).

Record Run := mkRun {
  Run_trace : list Event;
  Run_outcome : Outcome
}.

Module Body.
(** A statement either goes on with a value, leaves the function through a
    [return], or panics. *)
Inductive Flow (A : Type) :=
| Next (a : A)
| Leave (r : Result)
| Panic (msg : string).
Arguments Next {A} a.
Arguments Leave {A} r.
Arguments Panic {A} msg.

Section WithEnv.
Variable E : Env.

(** The store of the call and what the run has done so far. *)
Record St := mkSt {
  st_info : Info E;
  st_trace : list Event
}.

Definition M (A : Type) : Type := St -> St * Flow A.

Definition ret {A} (a : A) : M A := fun s => (s, Next a).

Definition bind {A B} (m : M A) (k : A -> M B) : M B :=
  fun s =>
    match m s with
    | (s', Next a) => k a s'
    | (s', Leave r) => (s', Leave r)
    | (s', Panic msg) => (s', Panic msg)
    end.

Definition return_ {A} (r : Result) : M A := fun s => (s, Leave r).

Definition panic {A} (msg : string) : M A := fun s => (s, Panic msg).

Definition emit (e : Event) : M unit :=
  fun s => (mkSt (st_info s) (st_trace s ++ [e]), Next tt).

(** A method that may update the store. *)
Definition update {A} (f : Info E -> Info E * A) : M A :=
  fun s => let '(i, a) := f (st_info s) in (mkSt i (st_trace s), Next a).

(** A method that reads the store. *)
Definition read {A} (f : Info E -> A) : M A :=
  fun s => (s, Next (f (st_info s))).

(** [if x == nil { return nil, nil, err }]. *)
Definition nonnil {A} (x : option A) (err : error) : M A :=
  match x with
  | Some a => ret a
  | None => return_ (None, None, Some err)
  end.
End WithEnv.
End Body.

Arguments Body.ret {E A} a.
Arguments Body.bind {E A B} m k.
Arguments Body.return_ {E A} r.
Arguments Body.panic {E A} msg.
Arguments Body.emit {E} e.
Arguments Body.update {E A} f.
Arguments Body.read {E A} f.
Arguments Body.nonnil {E A} x err.

Declare Scope go_scope.
Delimit Scope go_scope with go.
Notation "x <- m ;; k" := (Body.bind m (fun x => k))
  (at level 100, m at next level, right associativity) : go_scope.
Notation "m ;;; k" := (Body.bind m (fun _ => k))
  (at level 100, right associativity) : go_scope.

Section DeclPosition.
Variable E : Env.
(** The package variable [Debug]. *)
Variable Debug : bool.

Local Open Scope string_scope.
Local Open Scope Z_scope.
Local Open Scope go_scope.

(** [for _, id2 := range names { if id2.Name == name { node = id2; break } }]:
    the value of [node] after the loop. *)
Fixpoint rangeNames (names : list Ident) (name : string) (node : Node) : Node :=
  match names with
  | [] => node
  | id2 :: rest =>
      if String.eqb (Name id2) name then N_Ident id2
      else rangeNames rest name node
  end.

(** "improve final node to extract the position": the type switch. *)
Definition improve (id : Ident) (node : Node) : Body.M E Node :=
  match node with
  | N_FuncDecl t => Body.ret (N_Ident (FuncDecl_Name t))
  | N_TypeSpec t => Body.ret (N_Ident (TypeSpec_Name t))
  | N_AssignStmt t =>
      let lhsi := IdAssignStmtRhs id t in
      if 0 <=? lhsi then
        match nth_error (Lhs t) (Z.to_nat lhsi) with
        | Some e => Body.ret (Expr_Node e)
        | None => Body.panic "index out of range"
        end
      else Body.ret node
  | N_Field t => Body.ret (rangeNames (Field_Names t) (Name id) node)
  | N_ValueSpec t => Body.ret (rangeNames (ValueSpec_Names t) (Name id) node)
  | _ => Body.ret node
  end.

Definition DeclPosition_body (filename : string) (src : Src) (index : Z)
  : Body.M E Result :=
  (* parse main file *)
  filename <- Body.update (fun info => AddPathFile E info filename) ;;
  Body.emit (Ev_ParseFile filename) ;;;
  astFile <- Body.update (fun info => ParseFile E info filename src) ;;
  astFile <- Body.nonnil astFile (Errorf "unable to parse file") ;;
  (if Debug
   then lines <- Body.read (fun info => PrintIdOffsets E info astFile) ;;
        Body.emit (Ev_PrintIdOffsets lines)
   else Body.ret tt) ;;;
  (* get index node *)
  tokenFile <- Body.read (fun info => FSet_File E info (Package astFile)) ;;
  tokenFile <- Body.nonnil tokenFile (Errorf "unable to get token file") ;;
  Body.emit (Ev_PosNode (SafeOffsetPos tokenFile index)) ;;;
  indexNode <- Body.read (fun info => PosNode E info (SafeOffsetPos tokenFile index)) ;;
  indexNode <- Body.nonnil indexNode (Errorf "index node not found") ;;
  (* must be an id *)
  id <- match indexNode with
        | N_Ident id => Body.ret id
        | _ => Body.return_ (None, None, Some (Errorf "index not at an id node"))
        end ;;
  (* new resolver for the path *)
  path <- Body.read (fun info => PosFilePath E info (Package astFile)) ;;
  let res := NewResolver path id in
  (* resolve id declaration *)
  Body.emit (Ev_ResolveDecl id) ;;;
  node <- Body.update (fun info => ResolveDecl E info res id) ;;
  node <- Body.nonnil node (Errorf "id decl not found") ;;
  (* improve final node to extract the position *)
  node <- improve id node ;;
  (* node position *)
  posp <- Body.read (fun info => FSet_Position E info (Node_Pos node)) ;;
  endp <- Body.read (fun info => FSet_Position E info (Node_End node)) ;;
  Body.emit (Ev_Logf posp) ;;;
  Body.ret (Some posp, Some endp, None).

(** A call: the body run on a fresh store ([info := NewInfo()]). *)
Definition DeclPosition (filename : string) (src : Src) (index : Z) : Run :=
  match DeclPosition_body filename src index (Body.mkSt E (NewInfo E) []) with
  | (s, Body.Next r) => mkRun (Body.st_trace E s) (Returned r)
  | (s, Body.Leave r) => mkRun (Body.st_trace E s) (Returned r)
  | (s, Body.Panic msg) => mkRun (Body.st_trace E s) (Panicked msg)
  end.
End DeclPosition.

(** The identifiers a declaration node lists. *)
Definition names_of (node : Node) : list Ident :=
  match node with
  | N_FuncDecl t => [FuncDecl_Name t]
  | N_TypeSpec t => [TypeSpec_Name t]
  | N_AssignStmt t =>
      flat_map (fun e => match e with Expr_Ident i => [i] | _ => [] end) (Lhs t)
  | N_Field t => Field_Names t
  | N_ValueSpec t => ValueSpec_Names t
  | _ => []
  end.

(** ** A small implementation of the interface

    One file set holding the files parsed so far.  The parser is a table: two
    source texts with the nodes go/parser builds for them written out by
    hand, and no tree for any other text.  Locating and resolving follow the
    spec over those nodes. *)
Module Fixture.
Local Open Scope string_scope.
Local Open Scope Z_scope.

(** A parsed file: its slice of the file set, its text, its tree and every
    node of the tree, a parent before its children, in source order. *)
Record ParsedFile := mkParsedFile {
  pf_file : TokenFile;
  pf_text : string;
  pf_ast : File;
  pf_nodes : list Node
}.

Definition Info := list ParsedFile.

Definition id (pos : Pos) (name : string) : Node := N_Ident (mkIdent pos name).

Definition text_vars := "package p; var x, x int".

(** Positions are for a file at base 1. *)
Definition nodes_vars : list Node :=
  [ N_Other 1 24;
    id 9 "p";
    N_Other 12 24;
    N_ValueSpec (mkValueSpec [mkIdent 16 "x"; mkIdent 19 "x"] 16 24);
    id 16 "x"; id 19 "x"; id 21 "int" ].

Definition text_func :=
  "package p; type T struct { n int }; func F(a, b int) { c, d := a, b; F(c, d) }".

Definition nodes_func : list Node :=
  [ N_Other 1 79;
    id 9 "p";
    N_Other 12 35;
    N_TypeSpec (mkTypeSpec (mkIdent 17 "T") 35);
    id 17 "T";
    N_Other 19 35;
    N_Other 26 35;
    N_Field (mkField [mkIdent 28 "n"] 28 33);
    id 28 "n"; id 30 "int";
    N_FuncDecl (mkFuncDecl (mkIdent 42 "F") 37 79);
    id 42 "F";
    N_Other 37 53;
    N_Other 43 53;
    N_Field (mkField [mkIdent 44 "a"; mkIdent 47 "b"] 44 52);
    id 44 "a"; id 47 "b"; id 49 "int";
    N_Other 54 79;
    N_AssignStmt (mkAssignStmt
      [Expr_Ident (mkIdent 56 "c"); Expr_Ident (mkIdent 59 "d")]
      [Expr_Ident (mkIdent 64 "a"); Expr_Ident (mkIdent 67 "b")] 56 68);
    id 56 "c"; id 59 "d"; id 64 "a"; id 67 "b";
    N_Other 70 77;
    id 70 "F"; id 72 "c"; id 75 "d" ].

(** Unbalanced braces: the table has no tree for it. *)
Definition text_broken := "package p; func F() {".

Definition is_decl (n : Node) : bool :=
  match n with
  | N_FuncDecl _ | N_TypeSpec _ | N_ValueSpec _ => true
  | _ => false
  end.

Definition parse (text : string) : option (list Node) :=
  if String.eqb text text_vars then Some nodes_vars
  else if String.eqb text text_func then Some nodes_func
  else None.

(** go/token gives a new file the base after the end of the last one. *)
Definition nextBase (info : Info) : Z :=
  match info with
  | [] => 1
  | pf :: _ => Base (pf_file pf) + Size (pf_file pf) + 1
  end.

Definition shift (d : Z) (n : Node) : Node :=
  let sid i := mkIdent (NamePos i + d) (Name i) in
  let sex e := match e with
               | Expr_Ident i => Expr_Ident (sid i)
               | Expr_Other p q => Expr_Other (p + d) (q + d)
               end in
  match n with
  | N_Ident i => N_Ident (sid i)
  | N_FuncDecl t =>
      N_FuncDecl (mkFuncDecl (sid (FuncDecl_Name t)) (FuncDecl_Pos t + d) (FuncDecl_End t + d))
  | N_TypeSpec t => N_TypeSpec (mkTypeSpec (sid (TypeSpec_Name t)) (TypeSpec_End t + d))
  | N_AssignStmt t =>
      N_AssignStmt (mkAssignStmt (map sex (Lhs t)) (map sex (Rhs t))
                      (AssignStmt_Pos t + d) (AssignStmt_End t + d))
  | N_Field t => N_Field (mkField (map sid (Field_Names t)) (Field_Pos t + d) (Field_End t + d))
  | N_ValueSpec t =>
      N_ValueSpec (mkValueSpec (map sid (ValueSpec_Names t))
                     (ValueSpec_Pos t + d) (ValueSpec_End t + d))
  | N_Other p q => N_Other (p + d) (q + d)
  end.

Definition ParseFile (info : Info) (filename : string) (src : Src)
  : Info * option File :=
  match src with
  | Src_string text =>
      match parse text with
      | Some nodes =>
          let base := nextBase info in
          let nodes := map (shift (base - 1)) nodes in
          let f := mkFile base (filter is_decl nodes) in
          let tf := mkTokenFile filename base (Z.of_nat (String.length text)) in
          (mkParsedFile tf text f nodes :: info, Some f)
      | None => (info, None)
      end
  | _ => (info, None)
  end.

Definition covers (pf : ParsedFile) (p : Pos) : bool :=
  (Base (pf_file pf) <=? p) && (p <=? Base (pf_file pf) + Size (pf_file pf)).

Definition fileOf (info : Info) (p : Pos) : option ParsedFile :=
  find (fun pf => covers pf p) info.

Definition FSet_File (info : Info) (p : Pos) : option TokenFile :=
  option_map pf_file (fileOf info p).

(** Modelled from the spec: the node locator, whose body is in another file of
    the package.  "the most specific (deepest) node whose [start, end) span
    contains the offset": the narrowest such node of the table, the later
    one of two that are as narrow. *)
Definition inside (p : Pos) (n : Node) : bool :=
  (Node_Pos n <=? p) && (p <? Node_End n).

Definition width (n : Node) : Z := Node_End n - Node_Pos n.

Definition narrower (best : option Node) (n : Node) : option Node :=
  match best with
  | Some b => if width n <=? width b then Some n else best
  | None => Some n
  end.

Definition PosNode (info : Info) (p : Pos) : option Node :=
  match fileOf info p with
  | Some pf => fold_left narrower (filter (inside p) (pf_nodes pf)) None
  | None => None
  end.

Definition Ident_eqb (a b : Ident) : bool :=
  (NamePos a =? NamePos b) && String.eqb (Name a) (Name b).

Definition is_assign (n : Node) : bool :=
  match n with N_AssignStmt _ => true | _ => false end.

Definition has_name (name : string) (ids : list Ident) : bool :=
  existsb (fun i => String.eqb (Name i) name) ids.

(** Modelled from the spec: the resolver, whose body is in another file of
    the package, over files with a single scope.  Step 1: an identifier that is
    a declaring occurrence resolves to the declaration it stands in (a
    left-hand name of an assignment declares only when the name is not
    visible yet).  Step 2: otherwise the first declaration of the name. *)
Fixpoint declaring (seen : list Ident) (nodes : list Node) (i : Ident) : option Node :=
  match nodes with
  | [] => None
  | d :: rest =>
      if existsb (Ident_eqb i) (names_of d)
         && (negb (is_assign d) || negb (has_name (Name i) seen))
      then Some d
      else declaring (names_of d ++ seen) rest i
  end.

Definition resolve (nodes : list Node) (i : Ident) : option Node :=
  match declaring [] nodes i with
  | Some d => Some d
  | None => find (fun d => has_name (Name i) (names_of d)) nodes
  end.

Definition ResolveDecl (info : Info) (res : Resolver) (i : Ident)
  : Info * option Node :=
  match fileOf info (NamePos i) with
  | Some pf => (info, resolve (pf_nodes pf) i)
  | None => (info, None)
  end.

(** Offsets of the first bytes of the lines of a text. *)
Fixpoint lineStarts (text : string) (off : Z) : list Z :=
  match text with
  | EmptyString => []
  | String c rest =>
      if Ascii.eqb c "010"%char
      then (off + 1) :: lineStarts rest (off + 1)
      else lineStarts rest (off + 1)
  end.

Definition FSet_Position (info : Info) (p : Pos) : Position :=
  match fileOf info p with
  | Some pf =>
      let off := p - Base (pf_file pf) in
      let before := filter (fun s => s <=? off) (0 :: lineStarts (pf_text pf) 0) in
      mkPosition (TokenFile_Name (pf_file pf)) off
                 (Z.of_nat (length before)) (off - last before 0 + 1)
  | None => mkPosition "" 0 0 0
  end.

Definition PrintIdOffsets (info : Info) (f : File) : list string :=
  flat_map (fun d => map Name (names_of d)) (Decls f).

Definition env : Env :=
  mkEnv Info [] (fun info filename => (info, filename)) ParseFile
        PrintIdOffsets FSet_File PosNode
        (fun info p => match fileOf info p with
                       | Some pf => TokenFile_Name (pf_file pf)
                       | None => ""
                       end)
        ResolveDecl FSet_Position.

(** An implementation whose file set loses the file just parsed; it breaks
    what go/token promises and shows the fifth way out of the function. *)
Definition env_lost : Env :=
  mkEnv Info [] (fun info filename => (info, filename)) ParseFile
        PrintIdOffsets (fun _ _ => None) PosNode (fun _ _ => "")
        ResolveDecl FSet_Position.

Definition query (text : string) (index : Z) : Run :=
  DeclPosition env false "p.go" (Src_string text) index.

(** The store after parsing a text into the fresh store. *)
Definition info_of (text : string) : Info :=
  fst (ParseFile [] "p.go" (Src_string text)).
End Fixture.


(** ** The ways out of the function *)

Definition failed (msg : string) : Outcome := Returned (None, None, Some (Errorf msg)).

(** The value of [node] after the type switch, when no index goes out of
    range. *)
Definition improved (id : Ident) (node : Node) : Node :=
  match node with
  | N_FuncDecl t => N_Ident (FuncDecl_Name t)
  | N_TypeSpec t => N_Ident (TypeSpec_Name t)
  | N_AssignStmt t =>
      if 0 <=? IdAssignStmtRhs id t
      then nth (Z.to_nat (IdAssignStmtRhs id t)) (map Expr_Node (Lhs t)) node
      else node
  | N_Field t => rangeNames (Field_Names t) (Name id) node
  | N_ValueSpec t => rangeNames (ValueSpec_Names t) (Name id) node
  | _ => node
  end.

(** The first identifier of a list that carries a name. *)
Definition first_named (name : string) (ids : list Ident) : option Ident :=
  find (fun i => String.eqb (Name i) name) ids.

Section Stages.
Variable E : Env.
Variables (filename : string) (src : Src) (index : Z).

(** The store and the name after [AddPathFile]. *)
Definition added : Info E * string := AddPathFile E (NewInfo E) filename.

(** The store and the tree after [ParseFile]. *)
Definition parsed : Info E * option File :=
  ParseFile E (fst added) (snd added) src.

(** The query parses: [astFile] is the tree, [info] the store. *)
Definition parses (info : Info E) (astFile : File) : Prop :=
  parsed = (info, Some astFile).

(** The query locates [n]: the node at the clamped index. *)
Definition locates (info : Info E) (astFile : File) (n : Node) : Prop :=
  parses info astFile /\
  exists tokenFile,
    FSet_File E info (Package astFile) = Some tokenFile /\
    PosNode E info (SafeOffsetPos tokenFile index) = Some n.

(** The query resolves identifier [id] to [node], leaving store [info']. *)
Definition resolves (id : Ident) (info' : Info E) (node : Node) : Prop :=
  exists info astFile,
    locates info astFile (N_Ident id) /\
    ResolveDecl E info (NewResolver (PosFilePath E info (Package astFile)) id) id
    = (info', Some node).

(** The positions of a node's span in a store. *)
Definition span (info : Info E) (n : Node) : Outcome :=
  Returned (Some (FSet_Position E info (Node_Pos n)),
            Some (FSet_Position E info (Node_End n)), None).
End Stages.

(** Modelled from the spec: the error taxonomy of the design and the failure
    of the function that raises each one.  The failure to find the token file
    of the parsed tree has no counterpart in it. *)
Inductive QueryError :=
| ParseError
| NoNodeAtOffset
| NotAnIdentifier
| UnresolvedIdentifier.

Definition taxonomy (err : error) : option QueryError :=
  if String.eqb err "unable to parse file" then Some ParseError
  else if String.eqb err "index node not found" then Some NoNodeAtOffset
  else if String.eqb err "index not at an id node" then Some NotAnIdentifier
  else if String.eqb err "id decl not found" then Some UnresolvedIdentifier
  else None.

(** A result is complete: both positions and no error. *)
Definition succeeded (r : Result) : Prop :=
  exists posp endp, r = (Some posp, Some endp, None).

(** [id] is one of the identifiers the declaration node lists: an identifier
    at its own declaration site. *)
Definition declares (node : Node) (id : Ident) : Prop := In id (names_of node).

(** The nodes with a list of names: fields and value specs. *)
Definition lists_names (node : Node) : bool :=
  match node with
  | N_Field _ | N_ValueSpec _ => true
  | _ => false
  end.

(** The nodes the type switch has a case for. *)
Definition handled (node : Node) : bool :=
  match node with
  | N_FuncDecl _ | N_TypeSpec _ | N_AssignStmt _ | N_Field _ | N_ValueSpec _ => true
  | _ => false
  end.


Section Outcome.
Variable E : Env.
Variable Debug : bool.
Variables (filename : string) (src : Src) (index : Z).

Local Open Scope string_scope.

(** The outcome of a call read off the answers of the methods, stage by
    stage. *)
Definition outcome_of : Outcome :=
  let info := fst (parsed E filename src) in
  match snd (parsed E filename src) with
  | None => failed "unable to parse file"
  | Some astFile =>
      match FSet_File E info (Package astFile) with
      | None => failed "unable to get token file"
      | Some tokenFile =>
          match PosNode E info (SafeOffsetPos tokenFile index) with
          | None => failed "index node not found"
          | Some (N_Ident id) =>
              let res := NewResolver (PosFilePath E info (Package astFile)) id in
              match ResolveDecl E info res id with
              | (_, None) => failed "id decl not found"
              | (info', Some node) => span E info' (improved id node)
              end
          | Some _ => failed "index not at an id node"
          end
      end
  end.
End Outcome.

(** The reading of self resolution that holds the queried identifier to be
    the one returned: a query on an identifier at its own declaration site
    returns the span of that very identifier. *)
Definition self_resolution (E : Env) (filename : string) (src : Src) (index : Z) : Prop :=
  forall Debug id info' node,
    resolves E filename src index id info' node ->
    declares node id ->
    Run_outcome (DeclPosition E Debug filename src index) = span E info' (N_Ident id).



(** ** The calls of a run *)

Section Trace.
Variable E : Env.
Variable Debug : bool.
Variables (filename : string) (src : Src) (index : Z).

(** The trace of a call read off the answers of the methods, stage by
    stage. *)
Definition trace_of : list Event :=
  let info := fst (parsed E filename src) in
  Ev_ParseFile (snd (added E filename)) ::
  match snd (parsed E filename src) with
  | None => []
  | Some astFile =>
      (if Debug then [Ev_PrintIdOffsets (PrintIdOffsets E info astFile)] else []) ++
      match FSet_File E info (Package astFile) with
      | None => []
      | Some tokenFile =>
          Ev_PosNode (SafeOffsetPos tokenFile index) ::
          match PosNode E info (SafeOffsetPos tokenFile index) with
          | Some (N_Ident id) =>
              let res := NewResolver (PosFilePath E info (Package astFile)) id in
              Ev_ResolveDecl id ::
              match ResolveDecl E info res id with
              | (info', Some node) =>
                  [Ev_Logf (FSet_Position E info' (Node_Pos (improved id node)))]
              | (_, None) => []
              end
          | _ => []
          end
      end
  end.
End Trace.

(** The calls of the resolver in a trace. *)
Definition resolver_calls (tr : list Event) : list Ident :=
  flat_map (fun e => match e with Ev_ResolveDecl id => [id] | _ => [] end) tr.

(** The result lines logged in a trace. *)
Definition result_lines (tr : list Event) : list Position :=
  flat_map (fun e => match e with Ev_Logf p => [p] | _ => [] end) tr.

(** ** The Wayland window (package wayland)

    The window holds the protocol objects it has bound.  What the Wayland
    client library, the operating system and the logger do is outside the
    package: every call of them is recorded in the history of the run, and
    its answer is taken from a function of the history and the call. *)
Module Wayland.
Local Open Scope string_scope.
Local Open Scope Z_scope.

(** A protocol object, a file or a context of the libraries. *)
Definition Proxy := nat.

(** [*image.RGBA]. *)
Record RGBA := mkRGBA {
  Pix : list Byte.byte;
  Stride : Z;
  Rect : Z * Z * Z * Z
}.

(** [type Window struct]; a nil pointer is [None]; [width], [height] are
    int32 and [seatVersion] is uint32. *)
Record Window := mkWindow {
  exit : bool;
  width : Z;
  height : Z;
  pImage : option RGBA;
  frame : option RGBA;
  display : option Proxy;
  registry : option Proxy;
  shm : option Proxy;
  compositor : option Proxy;
  xdgWmBase : option Proxy;
  seat : option Proxy;
  seatVersion : Z;
  surface : option Proxy;
  xdgSurface : option Proxy;
  xdgTopLevel : option Proxy;
  keyboard : option Proxy;
  pointer : option Proxy;
  cursorTheme : option Proxy
}.

(** [&Window{}]. *)
Definition zeroWindow : Window :=
  mkWindow false 0 0 None None None None None None None None 0 None None None None None None.

(** The fields that hold a protocol object. *)
Inductive Slot :=
| S_display
| S_registry
| S_shm
| S_compositor
| S_xdgWmBase
| S_seat
| S_surface
| S_xdgSurface
| S_xdgTopLevel
| S_keyboard
| S_pointer
| S_cursorTheme.

Definition slot (sl : Slot) (w : Window) : option Proxy :=
  match sl with
  | S_display => display w
  | S_registry => registry w
  | S_shm => shm w
  | S_compositor => compositor w
  | S_xdgWmBase => xdgWmBase w
  | S_seat => seat w
  | S_surface => surface w
  | S_xdgSurface => xdgSurface w
  | S_xdgTopLevel => xdgTopLevel w
  | S_keyboard => keyboard w
  | S_pointer => pointer w
  | S_cursorTheme => cursorTheme w
  end.

(** [self.<field> = v]. *)
Definition set_slot (sl : Slot) (v : option Proxy) (w : Window) : Window :=
  match sl with
  | S_display =>
      mkWindow (exit w) (width w) (height w) (pImage w) (frame w) (v) (registry w) (shm w) (compositor w) (xdgWmBase w) (seat w) (seatVersion w) (surface w) (xdgSurface w) (xdgTopLevel w) (keyboard w) (pointer w) (cursorTheme w)
  | S_registry =>
      mkWindow (exit w) (width w) (height w) (pImage w) (frame w) (display w) (v) (shm w) (compositor w) (xdgWmBase w) (seat w) (seatVersion w) (surface w) (xdgSurface w) (xdgTopLevel w) (keyboard w) (pointer w) (cursorTheme w)
  | S_shm =>
      mkWindow (exit w) (width w) (height w) (pImage w) (frame w) (display w) (registry w) (v) (compositor w) (xdgWmBase w) (seat w) (seatVersion w) (surface w) (xdgSurface w) (xdgTopLevel w) (keyboard w) (pointer w) (cursorTheme w)
  | S_compositor =>
      mkWindow (exit w) (width w) (height w) (pImage w) (frame w) (display w) (registry w) (shm w) (v) (xdgWmBase w) (seat w) (seatVersion w) (surface w) (xdgSurface w) (xdgTopLevel w) (keyboard w) (pointer w) (cursorTheme w)
  | S_xdgWmBase =>
      mkWindow (exit w) (width w) (height w) (pImage w) (frame w) (display w) (registry w) (shm w) (compositor w) (v) (seat w) (seatVersion w) (surface w) (xdgSurface w) (xdgTopLevel w) (keyboard w) (pointer w) (cursorTheme w)
  | S_seat =>
      mkWindow (exit w) (width w) (height w) (pImage w) (frame w) (display w) (registry w) (shm w) (compositor w) (xdgWmBase w) (v) (seatVersion w) (surface w) (xdgSurface w) (xdgTopLevel w) (keyboard w) (pointer w) (cursorTheme w)
  | S_surface =>
      mkWindow (exit w) (width w) (height w) (pImage w) (frame w) (display w) (registry w) (shm w) (compositor w) (xdgWmBase w) (seat w) (seatVersion w) (v) (xdgSurface w) (xdgTopLevel w) (keyboard w) (pointer w) (cursorTheme w)
  | S_xdgSurface =>
      mkWindow (exit w) (width w) (height w) (pImage w) (frame w) (display w) (registry w) (shm w) (compositor w) (xdgWmBase w) (seat w) (seatVersion w) (surface w) (v) (xdgTopLevel w) (keyboard w) (pointer w) (cursorTheme w)
  | S_xdgTopLevel =>
      mkWindow (exit w) (width w) (height w) (pImage w) (frame w) (display w) (registry w) (shm w) (compositor w) (xdgWmBase w) (seat w) (seatVersion w) (surface w) (xdgSurface w) (v) (keyboard w) (pointer w) (cursorTheme w)
  | S_keyboard =>
      mkWindow (exit w) (width w) (height w) (pImage w) (frame w) (display w) (registry w) (shm w) (compositor w) (xdgWmBase w) (seat w) (seatVersion w) (surface w) (xdgSurface w) (xdgTopLevel w) (v) (pointer w) (cursorTheme w)
  | S_pointer =>
      mkWindow (exit w) (width w) (height w) (pImage w) (frame w) (display w) (registry w) (shm w) (compositor w) (xdgWmBase w) (seat w) (seatVersion w) (surface w) (xdgSurface w) (xdgTopLevel w) (keyboard w) (v) (cursorTheme w)
  | S_cursorTheme =>
      mkWindow (exit w) (width w) (height w) (pImage w) (frame w) (display w) (registry w) (shm w) (compositor w) (xdgWmBase w) (seat w) (seatVersion w) (surface w) (xdgSurface w) (xdgTopLevel w) (keyboard w) (pointer w) (v)
  end.

Definition set_exit (v : bool) (w : Window) : Window :=
  mkWindow (v) (width w) (height w) (pImage w) (frame w) (display w) (registry w) (shm w) (compositor w) (xdgWmBase w) (seat w) (seatVersion w) (surface w) (xdgSurface w) (xdgTopLevel w) (keyboard w) (pointer w) (cursorTheme w).

Definition set_width (v : Z) (w : Window) : Window :=
  mkWindow (exit w) (v) (height w) (pImage w) (frame w) (display w) (registry w) (shm w) (compositor w) (xdgWmBase w) (seat w) (seatVersion w) (surface w) (xdgSurface w) (xdgTopLevel w) (keyboard w) (pointer w) (cursorTheme w).

Definition set_height (v : Z) (w : Window) : Window :=
  mkWindow (exit w) (width w) (v) (pImage w) (frame w) (display w) (registry w) (shm w) (compositor w) (xdgWmBase w) (seat w) (seatVersion w) (surface w) (xdgSurface w) (xdgTopLevel w) (keyboard w) (pointer w) (cursorTheme w).

Definition set_frame (v : option RGBA) (w : Window) : Window :=
  mkWindow (exit w) (width w) (height w) (pImage w) (v) (display w) (registry w) (shm w) (compositor w) (xdgWmBase w) (seat w) (seatVersion w) (surface w) (xdgSurface w) (xdgTopLevel w) (keyboard w) (pointer w) (cursorTheme w).

Definition set_seatVersion (v : Z) (w : Window) : Window :=
  mkWindow (exit w) (width w) (height w) (pImage w) (frame w) (display w) (registry w) (shm w) (compositor w) (xdgWmBase w) (seat w) (v) (surface w) (xdgSurface w) (xdgTopLevel w) (keyboard w) (pointer w) (cursorTheme w).

(** An argument of a call. *)
Inductive Arg :=
| A_int (z : Z)
| A_str (s : string)
| A_obj (p : option Proxy).

(** A call out of the package: the function or method, the receiver of a
    method and the arguments. *)
Record Call := mkCall {
  callee : string;
  receiver : option Proxy;
  args : list Arg
}.

(** What a call gives back: an object, a string and an error, of which the
    caller reads the ones the function has. *)
Record Answer := mkAnswer {
  value : option Proxy;
  text : string;
  err : option string
}.

Inductive Reply :=
| Returns (a : Answer)
| Crash (msg : string).

(** What a run does: calls with their replies, lines handed to the logger or
    printed, and bytes copied into a mapping. *)
Inductive Event :=
| Called (c : Call) (r : Reply)
| Logged (line : string) (args : list Arg)
| Copied (dst : option Proxy) (src : list Byte.byte).

(** The libraries: the reply to a call after a history. *)
Definition Lib := list Event -> Call -> Reply.

(** The outside of the package.  The two seat capability constants belong to
    the client library; [Resize] is [resize.Resize] with bilinear
    interpolation followed by the assertion that the result is a
    [*image.RGBA], [None] when either panics. *)
Record World := mkWorld {
  lib : Lib;
  SeatCapabilityPointer : Z;
  SeatCapabilityKeyboard : Z;
  Resize : Z -> Z -> option RGBA -> option (option RGBA)
}.

(** Conversions and arithmetic of the fixed-width integers. *)
Definition uint32 (z : Z) : Z := z mod 2 ^ 32.
Definition int32 (z : Z) : Z := (z + 2 ^ 31) mod 2 ^ 32 - 2 ^ 31.
Definition uint (z : Z) : Z := z mod 2 ^ 64.

(** The window behind [self] and the history of the run. *)
Record State := mkState {
  self : Window;
  history : list Event
}.

(** A statement goes on with a value, ends the process ([log.Fatal] calls
    [os.Exit(1)]), or panics. *)
Inductive Flow (A : Type) :=
| Next (a : A)
| Exit (code : Z)
| Panic (msg : string).
Arguments Next {A} a.
Arguments Exit {A} code.
Arguments Panic {A} msg.

Definition M (A : Type) : Type := State -> State * Flow A.

Definition ret {A} (a : A) : M A := fun s => (s, Next a).

Definition bind {A B} (m : M A) (k : A -> M B) : M B :=
  fun s =>
    match m s with
    | (s', Next a) => k a s'
    | (s', Exit c) => (s', Exit c)
    | (s', Panic msg) => (s', Panic msg)
    end.

Definition get : M Window := fun s => (s, Next (self s)).

Definition modify (f : Window -> Window) : M unit :=
  fun s => (mkState (f (self s)) (history s), Next tt).

Definition record (e : Event) : M unit :=
  fun s => (mkState (self s) (history s ++ [e]), Next tt).

Definition panic {A} (msg : string) : M A := fun s => (s, Panic msg).

(** [log.Println], [log.Printf], [fmt.Println]. *)
Definition println (line : string) (a : list Arg) : M unit := record (Logged line a).

(** [log.Fatal], [log.Fatalf]: the line, then the end of the process. *)
Definition fatal {A} (line : string) (a : list Arg) : M A :=
  fun s => (mkState (self s) (history s ++ [Logged line a]), Exit 1).

(** [defer d] before [body]: [d] runs when [body] returns and when it
    panics, not when the process ends; a panic goes on after [d]. *)
Definition defer {A} (d : M unit) (body : M A) : M A :=
  fun s =>
    match body s with
    | (s', Next a) =>
        match d s' with
        | (s'', Next _) => (s'', Next a)
        | (s'', Exit c) => (s'', Exit c)
        | (s'', Panic msg) => (s'', Panic msg)
        end
    | (s', Exit c) => (s', Exit c)
    | (s', Panic msg) =>
        match d s' with
        | (s'', Next _) => (s'', Panic msg)
        | (s'', Exit c) => (s'', Exit c)
        | (s'', Panic msg') => (s'', Panic msg')
        end
    end.

Declare Scope wl_scope.
Delimit Scope wl_scope with wl.
Notation "x <- m ;; k" := (bind m (fun x => k))
  (at level 100, m at next level, right associativity) : wl_scope.
Notation "m ;;; k" := (bind m (fun _ => k))
  (at level 100, right associativity) : wl_scope.
Local Open Scope wl_scope.

(** [if err != nil { log.Println(line, err) }]. *)
Definition log_err (line : string) (e : option string) : M unit :=
  match e with
  | Some msg => println line [A_str msg]
  | None => ret tt
  end.

Section WithWorld.
Variable W : World.

(** A call: the reply of the libraries goes into the history; a crash of
    the callee is a panic of the caller. *)
Definition invoke (c : Call) : M Answer :=
  fun s =>
    let r := lib W (history s) c in
    let s' := mkState (self s) (history s ++ [Called c r]) in
    match r with
    | Returns a => (s', Next a)
    | Crash msg => (s', Panic msg)
    end.

Definition tempfileCreate (size : Z) : M (option Proxy * option string) :=
  dir <- invoke (mkCall "os.Getenv" None [A_str "XDG_RUNTIME_DIR"]) ;;
  if String.eqb (text dir) "" then
    ret (None, Some "XDG_RUNTIME_DIR is not defined in env")
  else
    created <- invoke (mkCall "os.CreateTemp" None [A_str (text dir); A_str "wl_shm_go_*"]) ;;
    match err created with
    | Some e => ret (None, Some e)
    | None =>
        let file := value created in
        r <- invoke (mkCall "os.File.Truncate" file [A_int size]) ;;
        match err r with
        | Some e => ret (None, Some e)
        | None =>
            name <- invoke (mkCall "os.File.Name" file []) ;;
            r <- invoke (mkCall "os.Remove" None [A_str (text name)]) ;;
            match err r with
            | Some e => ret (None, Some e)
            | None => ret (file, None)
            end
        end
    end.

(** [if err := self.<field>.<method>(); err != nil { log.Println(line, err) }]. *)
Definition attempt (sl : Slot) (method line : string) : M unit :=
  w <- get ;;
  r <- invoke (mkCall method (slot sl w) []) ;;
  log_err line (err r).

(** The same, followed by [self.<field> = nil]. *)
Definition drop (sl : Slot) (method line : string) : M unit :=
  attempt sl method line ;;;
  modify (set_slot sl None).

Definition releasePointer : M unit :=
  drop S_pointer "client.Pointer.Release" "unable to release pointer interface:".

Definition releaseKeyboard : M unit :=
  drop S_keyboard "client.Keyboard.Release" "unable to release keyboard interface:".

(** [if self.<field> != nil { m }]. *)
Definition when_set (sl : Slot) (m : M unit) : M unit :=
  w <- get ;;
  match slot sl w with
  | Some _ => m
  | None => ret tt
  end.

Definition Close : M unit :=
  when_set S_pointer releasePointer ;;;
  when_set S_keyboard releaseKeyboard ;;;
  when_set S_cursorTheme
    (drop S_cursorTheme "cursor.Theme.Destroy" "unable to destroy cursor theme:") ;;;
  when_set S_xdgTopLevel
    (drop S_xdgTopLevel "xdg_shell.Toplevel.Destroy" "unable to destroy xdg_toplevel:") ;;;
  when_set S_xdgSurface
    (drop S_xdgSurface "xdg_shell.Surface.Destroy" "unable to destroy xdg_surface:") ;;;
  when_set S_surface
    (drop S_surface "client.Surface.Destroy" "unable to destroy wl_surface:") ;;;
  when_set S_seat
    (drop S_seat "client.Seat.Release" "unable to destroy wl_seat:") ;;;
  when_set S_xdgWmBase
    (drop S_xdgWmBase "xdg_shell.WmBase.Destroy" "unable to destroy xdg_wm_base:") ;;;
  when_set S_shm
    (drop S_shm "client.Shm.Destroy" "unable to destroy wl_shm:") ;;;
  when_set S_compositor
    (drop S_compositor "client.Compositor.Destroy" "unable to destroy wl_compositor:") ;;;
  when_set S_registry
    (drop S_registry "client.Registry.Destroy" "unable to destroy wl_registry:") ;;;
  when_set S_display
    (attempt S_display "client.Display.Destroy" "unable to destroy wl_display:") ;;;
  w <- get ;;
  ctx <- invoke (mkCall "client.Display.Context" (display w) []) ;;
  r <- invoke (mkCall "client.Context.Close" (value ctx) []) ;;
  log_err "unable to close wayland context:" (err r).

Definition attachPointer : M unit :=
  w <- get ;;
  r <- invoke (mkCall "client.Seat.GetPointer" (seat w) []) ;;
  match err r with
  | Some e => fatal "unable to register pointer interface:" [A_str e]
  | None => modify (set_slot S_pointer (value r))
  end.

Definition handleKeyboardKeymap (Fd Size : Z) : M unit :=
  defer (_ <- invoke (mkCall "unix.Close" None [A_int Fd]) ;; ret tt)
    (w <- get ;;
     let flags := if 7 <=? seatVersion w then "unix.MAP_PRIVATE" else "unix.MAP_SHARED" in
     r <- invoke (mkCall "unix.Mmap" None
                    [A_int Fd; A_int 0; A_int Size; A_str "unix.PROT_READ"; A_str flags]) ;;
     match err r with
     | Some e => println "failed to mmap keymap: %v\n" [A_str e]
     | None =>
         defer (_ <- invoke (mkCall "unix.Munmap" None [A_obj (value r)]) ;; ret tt)
           (println "%v" [A_obj (value r)])
     end).

Definition attachKeyboard : M unit :=
  w <- get ;;
  r <- invoke (mkCall "client.Seat.GetKeyboard" (seat w) []) ;;
  match err r with
  | Some e => fatal "unable to register keyboard interface:" [A_str e]
  | None =>
      modify (set_slot S_keyboard (value r)) ;;;
      _ <- invoke (mkCall "client.Keyboard.SetKeyHandler" (value r) []) ;;
      _ <- invoke (mkCall "client.Keyboard.SetKeymapHandler" (value r) []) ;;
      ret tt
  end.

Definition is_set (p : option Proxy) : bool :=
  match p with Some _ => true | None => false end.

(** [(e.Capabilities * uint32(c)) != 0], in uint32. *)
Definition have (Capabilities c : Z) : bool :=
  negb (uint32 (Capabilities * uint32 c) =? 0).

Definition handleSeatCapabilities (Capabilities : Z) : M unit :=
  let havePointer := have Capabilities (SeatCapabilityPointer W) in
  w <- get ;;
  (if havePointer && is_set (pointer w) then attachPointer else releasePointer) ;;;
  let haveKeyboard := have Capabilities (SeatCapabilityKeyboard W) in
  w <- get ;;
  (if haveKeyboard && is_set (keyboard w) then attachKeyboard else releaseKeyboard).

(** [client.New<T>(self.display.Context())] and
    [self.registry.Bind(e.Name, e.Interface, e.Version, obj)]; the line of
    the fatal error is the same in the four cases of the switch. *)
Definition bindGlobal (constructor : string) (Name : Z) (Interface : string) (Version : Z)
  : M (option Proxy) :=
  w <- get ;;
  ctx <- invoke (mkCall "client.Display.Context" (display w) []) ;;
  obj <- invoke (mkCall constructor None [A_obj (value ctx)]) ;;
  r <- invoke (mkCall "client.Registry.Bind" (registry w)
                 [A_int Name; A_str Interface; A_int Version; A_obj (value obj)]) ;;
  match err r with
  | Some e => fatal "unable to bind wl_compositor interface: %v" [A_str e]
  | None => ret (value obj)
  end.

Definition handleRegistryGlobal (Name : Z) (Interface : string) (Version : Z) : M unit :=
  if String.eqb Interface "wl_compositor" then
    compositor <- bindGlobal "client.NewCompositor" Name Interface Version ;;
    modify (set_slot S_compositor compositor)
  else if String.eqb Interface "wl_shm" then
    shm <- bindGlobal "client.NewShm" Name Interface Version ;;
    modify (set_slot S_shm shm) ;;;
    _ <- invoke (mkCall "client.Shm.SetFormatHandler" shm []) ;;
    ret tt
  else if String.eqb Interface "xdg_wm_base" then
    xdgWmBase <- bindGlobal "xdg_shell.NewWmBase" Name Interface Version ;;
    modify (set_slot S_xdgWmBase xdgWmBase) ;;;
    _ <- invoke (mkCall "xdg_shell.WmBase.SetPingHandler" xdgWmBase []) ;;
    ret tt
  else if String.eqb Interface "wl_seat" then
    seat <- bindGlobal "client.NewSeat" Name Interface Version ;;
    modify (set_slot S_seat seat) ;;;
    modify (set_seatVersion Version) ;;;
    _ <- invoke (mkCall "client.Seat.SetCapabilitiesHandler" seat []) ;;
    _ <- invoke (mkCall "client.Seat.SetNameHandler" seat []) ;;
    ret tt
  else ret tt.

Definition drawFrame : M (option Proxy) :=
  w <- get ;;
  let stride := int32 (width w * 4) in
  let size := int32 (stride * height w) in
  created <- tempfileCreate size ;;
  match snd created with
  | Some e => fatal "unable to create a temporary file: %v" [A_str e]
  | None =>
      let file := fst created in
      defer (r <- invoke (mkCall "os.File.Close" file []) ;;
             log_err "unable to close file: %v\n" (err r))
        (fd <- invoke (mkCall "os.File.Fd" file []) ;;
         mapped <- invoke (mkCall "unix.Mmap" None
                     [A_obj (value fd); A_int 0; A_int size;
                      A_str "unix.PROT_READ|unix.PROT_WRITE"; A_str "unix.MAP_SHARED"]) ;;
         match err mapped with
         | Some e => fatal "unable to create mapping: %v" [A_str e]
         | None =>
             let data := value mapped in
             defer (r <- invoke (mkCall "unix.Munmap" None [A_obj data]) ;;
                    log_err "unable to delete mapping: %v\n" (err r))
               (fd <- invoke (mkCall "os.File.Fd" file []) ;;
                w <- get ;;
                made <- invoke (mkCall "client.Shm.CreatePool" (shm w)
                          [A_obj (value fd); A_int size]) ;;
                match err made with
                | Some e => fatal "unable to create shm pool: %v" [A_str e]
                | None =>
                    let pool := value made in
                    defer (r <- invoke (mkCall "client.ShmPool.Destroy" pool []) ;;
                           log_err "unable to destroy shm pool: %v\n" (err r))
                      (w <- get ;;
                       made <- invoke (mkCall "client.ShmPool.CreateBuffer" pool
                                 [A_int 0; A_int (width w); A_int (height w); A_int stride;
                                  A_str "client.ShmFormatArgb8888"]) ;;
                       match err made with
                       | Some e =>
                           fatal "unable to create client.Buffer from shm pool: %v" [A_str e]
                       | None =>
                           let buf := value made in
                           w <- get ;;
                           match frame w with
                           | None => panic "nil pointer dereference"
                           | Some img =>
                               record (Copied data (Pix img)) ;;;
                               _ <- invoke (mkCall "swizzle.BGRA" None [A_obj data]) ;;
                               _ <- invoke (mkCall "client.Buffer.SetReleaseHandler" buf []) ;;
                               ret buf
                           end
                       end)
                end)
         end)
  end.

Definition handleSurfaceConfigure (Serial : Z) : M unit :=
  w <- get ;;
  r <- invoke (mkCall "xdg_shell.Surface.AckConfigure" (xdgSurface w) [A_int Serial]) ;;
  match err r with
  | Some e => fatal "unable to ack xdg surface configure:" [A_str e]
  | None =>
      buffer <- drawFrame ;;
      w <- get ;;
      r <- invoke (mkCall "client.Surface.Attach" (surface w)
                     [A_obj buffer; A_int 0; A_int 0]) ;;
      match err r with
      | Some e => fatal "unable to attach buffer to surface: %v" [A_str e]
      | None =>
          w <- get ;;
          r <- invoke (mkCall "client.Surface.Commit" (surface w) []) ;;
          match err r with
          | Some e => fatal "unable to commit surface state: %v" [A_str e]
          | None => ret tt
          end
      end
  end.

Definition handleToplevelConfigure (Width Height : Z) : M unit :=
  if (Width =? 0) || (Height =? 0) then ret tt
  else
    w <- get ;;
    if (Width =? width w) && (Height =? height w) then ret tt
    else
      match Resize W (uint Width) (uint Height) (pImage w) with
      | None => panic "resize"
      | Some img =>
          modify (set_frame img) ;;;
          modify (set_width Width) ;;;
          modify (set_height Height)
      end.

End WithWorld.

(** The calls of a history, in order. *)
Definition calls (h : list Event) : list Call :=
  flat_map (fun e => match e with Called c _ => [c] | _ => [] end) h.

(** The last [n] calls of a list. *)
Definition lastn_calls (n : nat) (l : list Call) : list Call := rev (firstn n (rev l)).

(** A library none of whose functions panics. *)
Definition calm (l : Lib) : Prop := forall h c, exists a, l h c = Returns a.

(** A statement run from [s] goes on, with a value and a state that satisfy
    [Q]. *)
Definition wp {A} (m : M A) (s : State) (Q : A -> State -> Prop) : Prop :=
  exists a s', m s = (s', Next a) /\ Q a s'.

(** The line [log_err] leaves in the history. *)
Definition logged (line : string) (e : option string) : list Event :=
  match e with
  | Some msg => [Logged line [A_str msg]]
  | None => []
  end.

(** What the release of the object in a field leaves in the history when
    the call is answered by [a]: nothing for a nil field, else the call on
    the object with its answer, and the line for its error if it has one. *)
Definition released (method line : string) (p : option Proxy) (a : Answer) : list Event :=
  match p with
  | Some _ => Called (mkCall method p []) (Returns a) :: logged line (err a)
  | None => []
  end.

(** What [Close] leaves in the history of a window, for the answers given to
    the release of each field, to [display.Context()] and to the closing of
    the context. *)
Definition Close_history (w : Window) (a : Slot -> Answer) (actx aclose : Answer)
  : list Event :=
  released "client.Pointer.Release" "unable to release pointer interface:"
    (pointer w) (a S_pointer) ++
  released "client.Keyboard.Release" "unable to release keyboard interface:"
    (keyboard w) (a S_keyboard) ++
  released "cursor.Theme.Destroy" "unable to destroy cursor theme:"
    (cursorTheme w) (a S_cursorTheme) ++
  released "xdg_shell.Toplevel.Destroy" "unable to destroy xdg_toplevel:"
    (xdgTopLevel w) (a S_xdgTopLevel) ++
  released "xdg_shell.Surface.Destroy" "unable to destroy xdg_surface:"
    (xdgSurface w) (a S_xdgSurface) ++
  released "client.Surface.Destroy" "unable to destroy wl_surface:"
    (surface w) (a S_surface) ++
  released "client.Seat.Release" "unable to destroy wl_seat:"
    (seat w) (a S_seat) ++
  released "xdg_shell.WmBase.Destroy" "unable to destroy xdg_wm_base:"
    (xdgWmBase w) (a S_xdgWmBase) ++
  released "client.Shm.Destroy" "unable to destroy wl_shm:"
    (shm w) (a S_shm) ++
  released "client.Compositor.Destroy" "unable to destroy wl_compositor:"
    (compositor w) (a S_compositor) ++
  released "client.Registry.Destroy" "unable to destroy wl_registry:"
    (registry w) (a S_registry) ++
  released "client.Display.Destroy" "unable to destroy wl_display:"
    (display w) (a S_display) ++
  [Called (mkCall "client.Display.Context" (display w) []) (Returns actx);
   Called (mkCall "client.Context.Close" (value actx) []) (Returns aclose)] ++
  logged "unable to close wayland context:" (err aclose).

(** A history without the lines of the logger. *)
Definition unlogged (h : list Event) : list Event :=
  filter (fun e => match e with Logged _ _ => false | _ => true end) h.

(** The unmapping that belongs to a reply of [unix.Mmap]: of the mapping it
    gave, when it gave one without an error. *)
Definition unmapped (r : Reply) : list Call :=
  match r with
  | Returns a =>
      match err a with
      | None => [mkCall "unix.Munmap" None [A_obj (value a)]]
      | Some _ => []
      end
  | Crash _ => []
  end.

(** The window with every object but the display let go. *)
Definition closed (w : Window) : Window :=
  mkWindow (exit w) (width w) (height w) (pImage w) (frame w)
           (display w) None None None None None (seatVersion w)
           None None None None None None.


(** The field an interface name of the registry is bound to. *)
Definition global_slot (Interface : string) : option Slot :=
  if String.eqb Interface "wl_compositor" then Some S_compositor
  else if String.eqb Interface "wl_shm" then Some S_shm
  else if String.eqb Interface "xdg_wm_base" then Some S_xdgWmBase
  else if String.eqb Interface "wl_seat" then Some S_seat
  else None.

(** A library for the examples: the runtime directory is set, a file has a
    name, every other call gives a new object, and nothing fails. *)
Definition desktop : Lib :=
  fun h c =>
    if String.eqb (callee c) "os.Getenv" then
      Returns (mkAnswer None "/run/user/1000" None)
    else if String.eqb (callee c) "os.File.Name" then
      Returns (mkAnswer None "/run/user/1000/wl_shm_go_1" None)
    else Returns (mkAnswer (Some (length h)) "" None).

Definition desk : World := mkWorld desktop 1 2 (fun _ _ img => Some img).

(** A window that holds a pointer, a seat and a display. *)
Definition seated : Window :=
  set_slot S_pointer (Some 7%nat)
    (set_slot S_seat (Some 5%nat) (set_slot S_display (Some 1%nat) zeroWindow)).

(** The same window with a shm object, a size of 2 by 3 and a frame. *)
Definition pictured : Window :=
  set_frame (Some (mkRGBA [] 8 (0, 0, 2, 3)))
    (set_width 2 (set_height 3 (set_slot S_shm (Some 9%nat) seated))).
End Wayland.

(** ** Lemmas on the loops and the index *)

Lemma rangeNames_split (names : list Ident) (name : string) (node : Node) :
  (rangeNames names name node = node /\
   forall i, In i names -> Name i <> name) \/
  (exists pre id2 post,
      names = pre ++ id2 :: post /\ Name id2 = name /\
      (forall i, In i pre -> Name i <> name) /\
      rangeNames names name node = N_Ident id2).
Proof.
  induction names as [|a names IH]; cbn.
  - left; split; [reflexivity | intros i []].
  - destruct (String.eqb_spec (Name a) name) as [Heq|Hne].
    + right; exists [], a, names; cbn; repeat split; auto; intros i [].
    + destruct IH as [[Hn Hall]|(pre & id2 & post & Hs & Hname & Hpre & Hr)].
      * left; split; [assumption|].
        intros i [<-|Hi]; auto.
      * right; exists (a :: pre), id2, post; cbn; repeat split; auto.
        -- now rewrite Hs.
        -- intros i [<-|Hi]; auto.
Qed.

Lemma rangeNames_first (pre post : list Ident) (id2 : Ident) (name : string) (node : Node) :
  Name id2 = name ->
  (forall i, In i pre -> Name i <> name) ->
  rangeNames (pre ++ id2 :: post) name node = N_Ident id2.
Proof.
  intros Hname Hpre; induction pre as [|a pre IH]; cbn.
  - now rewrite (proj2 (String.eqb_eq _ _) Hname).
  - destruct (String.eqb_spec (Name a) name) as [Heq|_].
    + exfalso; apply (Hpre a); [now left | exact Heq].
    + apply IH; intros i Hi; apply Hpre; now right.
Qed.

(** The index is -1, or it points in the list at the first identifier with the
    name. *)
Lemma lhsIndex_split (name : string) (lhs : list Expr) (i : Z) :
  (lhsIndex name lhs i = -1 /\
   forall id2, In (Expr_Ident id2) lhs -> Name id2 <> name) \/
  (exists pre id2 post,
      lhs = pre ++ Expr_Ident id2 :: post /\ Name id2 = name /\
      (forall id3, In (Expr_Ident id3) pre -> Name id3 <> name) /\
      lhsIndex name lhs i = i + Z.of_nat (length pre)).
Proof.
  revert i; induction lhs as [|e lhs IH]; intros i; cbn [lhsIndex].
  - left; split; [reflexivity | intros id2 []].
  - assert (Hrest :
      (forall id3, e = Expr_Ident id3 -> Name id3 <> name) ->
      (lhsIndex name lhs (i + 1) = -1 /\
       forall id2, In (Expr_Ident id2) (e :: lhs) -> Name id2 <> name) \/
      (exists pre id2 post,
          e :: lhs = pre ++ Expr_Ident id2 :: post /\ Name id2 = name /\
          (forall id3, In (Expr_Ident id3) pre -> Name id3 <> name) /\
          lhsIndex name lhs (i + 1) = i + Z.of_nat (length pre))).
    { intros He.
      destruct (IH (i + 1)) as [[Hn Hall]|(pre & id2 & post & Hs & Hname & Hpre & Hr)].
      - left; split; [assumption|].
        intros id2 [->|Hin]; [now apply He | now apply Hall].
      - right; exists (e :: pre), id2, post; repeat split; auto.
        + cbn; now rewrite Hs.
        + intros id3 [->|Hin]; [now apply He | now apply Hpre].
        + rewrite Hr; cbn [length]; lia. }
    destruct e as [a|p q].
    + destruct (String.eqb_spec (Name a) name) as [Heq|Hne].
      * right; exists [], a, lhs; cbn.
        split; [reflexivity|]. split; [assumption|].
        split; [intros id3 [] | lia].
      * apply Hrest; intros id3 [= <-]; exact Hne.
    + apply Hrest; intros id3 [=].
Qed.

(** A non-negative index is within the list. *)
Lemma IdAssignStmtRhs_in_range (id : Ident) (t : AssignStmt) :
  0 <= IdAssignStmtRhs id t ->
  exists pre id2 post,
    Lhs t = pre ++ Expr_Ident id2 :: post /\ Name id2 = Name id /\
    (forall id3, In (Expr_Ident id3) pre -> Name id3 <> Name id) /\
    IdAssignStmtRhs id t = Z.of_nat (length pre) /\
    nth_error (Lhs t) (Z.to_nat (IdAssignStmtRhs id t)) = Some (Expr_Ident id2).
Proof.
  unfold IdAssignStmtRhs; intros H.
  destruct (lhsIndex_split (Name id) (Lhs t) 0)
    as [[Hn _]|(pre & id2 & post & Hs & Hname & Hpre & Hr)]; [lia|].
  exists pre, id2, post; repeat split; auto.
  rewrite Hr, Hs; cbn.
  rewrite Nat2Z.id, nth_error_app2 by lia.
  now rewrite Nat.sub_diag.
Qed.

(** The type switch always goes on, with the store untouched. *)
Lemma improve_improved (E : Env) (id : Ident) (node : Node) (s : Body.St E) :
  improve E id node s = (s, Body.Next (improved id node)).
Proof.
  destruct node; cbn; try reflexivity.
  destruct (0 <=? IdAssignStmtRhs id t) eqn:Hge; [|reflexivity].
  apply Z.leb_le in Hge.
  destruct (IdAssignStmtRhs_in_range id t Hge) as (pre & id2 & post & Hs & _ & _ & Hi & Hnth).
  rewrite Hnth; cbn; unfold Body.ret; do 2 f_equal.
  rewrite Hi, Nat2Z.id, Hs, map_app, app_nth2 by (rewrite length_map; lia).
  now rewrite length_map, Nat.sub_diag.
Qed.

(** The body in the monad computes [outcome_of]. *)
Lemma DeclPosition_outcome (E : Env) (Debug : bool) (filename : string) (src : Src) (index : Z) :
  Run_outcome (DeclPosition E Debug filename src index) = outcome_of E filename src index.
Proof.
  unfold DeclPosition, DeclPosition_body, outcome_of, parsed, added.
  unfold Body.bind, Body.update, Body.read, Body.emit, Body.nonnil, Body.ret, Body.return_.
  cbn.
  destruct (AddPathFile E (NewInfo E) filename) as [i0 fname]; cbn.
  destruct (ParseFile E i0 fname src) as [i1 [astFile|]]; cbn; [|reflexivity].
  destruct Debug; cbn.
  all: destruct (FSet_File E i1 (Package astFile)) as [tf|]; cbn; [|reflexivity].
  all: destruct (PosNode E i1 (SafeOffsetPos tf index)) as [[id| | | | | |]|]; cbn;
    try reflexivity.
  all: destruct (ResolveDecl E i1 _ id) as [i2 [node|]]; cbn; [|reflexivity].
  all: rewrite improve_improved; reflexivity.
Qed.

(** ** The failures of a query *)

Section Failures.
Variable E : Env.
Variables (filename : string) (src : Src) (index : Z).

Local Open Scope string_scope.

(** The outcome is one of six: five failures and a span. *)
Lemma outcome_of_cases :
  let o := outcome_of E filename src index in
  o = failed "unable to parse file" \/
  o = failed "unable to get token file" \/
  o = failed "index node not found" \/
  o = failed "index not at an id node" \/
  o = failed "id decl not found" \/
  exists info n, o = span E info n.
Proof.
  unfold outcome_of.
  destruct (snd (parsed E filename src)) as [astFile|]; [|now left].
  destruct (FSet_File E _ (Package astFile)) as [tf|]; [|now right; left].
  destruct (PosNode E _ (SafeOffsetPos tf index)) as [n|]; [|now right; right; left].
  destruct n; try (now right; right; right; left).
  destruct (ResolveDecl E _ _ id) as [i2 [node|]].
  - right; right; right; right; right; now exists i2, (improved id node).
  - now right; right; right; right; left.
Qed.

Lemma parsed_parses :
  forall astFile, snd (parsed E filename src) = Some astFile ->
  parses E filename src (fst (parsed E filename src)) astFile.
Proof.
  intros astFile H; unfold parses.
  destruct (parsed E filename src) as [i a]; cbn in *; now subst.
Qed.

Lemma outcome_of_locates (info : Info E) (astFile : File) (n : Node) :
  locates E filename src index info astFile n ->
  outcome_of E filename src index =
  match n with
  | N_Ident id =>
      match ResolveDecl E info (NewResolver (PosFilePath E info (Package astFile)) id) id with
      | (_, None) => failed "id decl not found"
      | (info', Some node) => span E info' (improved id node)
      end
  | _ => failed "index not at an id node"
  end.
Proof.
  intros [Hp (tf & Htf & Hn)]; unfold parses in Hp; unfold outcome_of.
  rewrite Hp; cbn; rewrite Htf, Hn; reflexivity.
Qed.

Lemma outcome_of_resolves (id : Ident) (info' : Info E) (node : Node) :
  resolves E filename src index id info' node ->
  outcome_of E filename src index = span E info' (improved id node).
Proof.
  intros (info & astFile & Hloc & Hres).
  rewrite (outcome_of_locates _ _ _ Hloc), Hres; reflexivity.
Qed.
End Failures.


(** C4.  The outcome is the parse failure exactly when the parser gives no
    tree; the run then consists of the call of the parser alone: no node is
    located and no resolution is attempted. *)
Theorem DeclPosition_parse_failure
  (E : Env) (Debug : bool) (filename : string) (src : Src) (index : Z) :
  let run := DeclPosition E Debug filename src index in
  (Run_outcome run = failed "unable to parse file" <->
   snd (parsed E filename src) = None) /\
  (snd (parsed E filename src) = None ->
   Run_trace run = [Ev_ParseFile (snd (added E filename))]).
Proof.
  cbn zeta; split.
  - rewrite DeclPosition_outcome; split.
    + unfold outcome_of.
      destruct (snd (parsed E filename src)) as [astFile|]; [|reflexivity].
      destruct (FSet_File E _ (Package astFile)) as [tf|]; [|discriminate].
      destruct (PosNode E _ (SafeOffsetPos tf index)) as [n|]; [|discriminate].
      destruct n; try discriminate.
      destruct (ResolveDecl E _ _ id) as [i2 [node|]]; discriminate.
    + intros Hp; unfold outcome_of; now rewrite Hp.
  - unfold parsed, added, DeclPosition, DeclPosition_body.
    unfold Body.bind, Body.update, Body.read, Body.emit, Body.nonnil, Body.ret, Body.return_.
    cbn.
    destruct (AddPathFile E (NewInfo E) filename) as [i0 fname]; cbn.
    destruct (ParseFile E i0 fname src) as [i1 [astFile|]]; cbn; [discriminate|reflexivity].
Qed.

(** C9.  The outcome is the not-an-identifier failure exactly when the query
    parses and the node located at the clamped index is not an identifier,
    whatever that index was before clamping. *)
Theorem DeclPosition_not_an_identifier
  (E : Env) (Debug : bool) (filename : string) (src : Src) (index : Z) :
  Run_outcome (DeclPosition E Debug filename src index)
  = failed "index not at an id node" <->
  exists info astFile n,
    locates E filename src index info astFile n /\ is_Ident n = false.
Proof.
  rewrite DeclPosition_outcome; split.
  - unfold outcome_of.
    destruct (snd (parsed E filename src)) as [astFile|] eqn:Hp; [|discriminate].
    destruct (FSet_File E _ (Package astFile)) as [tf|] eqn:Htf; [|discriminate].
    destruct (PosNode E _ (SafeOffsetPos tf index)) as [n|] eqn:Hn; [|discriminate].
    intros Ho.
    exists (fst (parsed E filename src)), astFile, n; split.
    + split; [now apply parsed_parses | now exists tf].
    + destruct n; try reflexivity.
      destruct (ResolveDecl E _ _ id) as [i2 [node|]]; discriminate.
  - intros (info & astFile & n & Hloc & Hn).
    rewrite (outcome_of_locates _ _ _ _ _ _ _ Hloc).
    destruct n; try reflexivity; discriminate.
Qed.

(** C10.  Every call returns, and what it returns is all or nothing: both
    positions are nil exactly when the error is not nil, both are not nil
    exactly when the error is nil, and one position never comes without the
    other. *)
Theorem DeclPosition_all_or_nothing
  (E : Env) (Debug : bool) (filename : string) (src : Src) (index : Z) :
  exists posp endp err,
    Run_outcome (DeclPosition E Debug filename src index) = Returned (posp, endp, err) /\
    (posp = None /\ endp = None <-> err <> None) /\
    (posp <> None /\ endp <> None <-> err = None) /\
    (posp = None <-> endp = None).
Proof.
  rewrite DeclPosition_outcome.
  destruct (outcome_of_cases E filename src index)
    as [H|[H|[H|[H|[H|(info & n & H)]]]]]; cbn zeta in H; rewrite H;
    unfold failed, span; do 3 eexists; (split; [reflexivity|]);
    repeat split; try congruence; intros; try discriminate;
    try (destruct H0; congruence); try tauto.
Qed.



(** ** The type switch *)

Lemma first_named_first (pre post : list Ident) (id2 : Ident) (name : string) :
  Name id2 = name ->
  (forall i, In i pre -> Name i <> name) ->
  first_named name (pre ++ id2 :: post) = Some id2.
Proof.
  intros Hname Hpre; unfold first_named; induction pre as [|a pre IH]; cbn.
  - now rewrite (proj2 (String.eqb_eq _ _) Hname).
  - destruct (String.eqb_spec (Name a) name) as [Heq|_].
    + exfalso; apply (Hpre a); [now left | exact Heq].
    + apply IH; intros i Hi; apply Hpre; now right.
Qed.

Lemma first_named_In (name : string) (ids : list Ident) (id2 : Ident) :
  first_named name ids = Some id2 -> In id2 ids /\ Name id2 = name.
Proof.
  unfold first_named; intros H; apply find_some in H as [Hin Heq].
  split; [assumption | now apply String.eqb_eq].
Qed.

(** The identifiers among a list of expressions. *)
Lemma In_idents (lhs : list Expr) (i : Ident) :
  In i (flat_map (fun e => match e with Expr_Ident i => [i] | _ => [] end) lhs) <->
  In (Expr_Ident i) lhs.
Proof.
  rewrite in_flat_map; split.
  - intros ([a|p q] & Hin & Hi); cbn in Hi; [|contradiction].
    destruct Hi as [->|[]]; assumption.
  - intros Hin; exists (Expr_Ident i); split; [assumption | now left].
Qed.

Lemma improved_AssignStmt (id : Ident) (t : AssignStmt) (pre post : list Expr) (id2 : Ident) :
  Lhs t = pre ++ Expr_Ident id2 :: post ->
  Name id2 = Name id ->
  (forall id3, In (Expr_Ident id3) pre -> Name id3 <> Name id) ->
  IdAssignStmtRhs id t = Z.of_nat (length pre) /\
  improved id (N_AssignStmt t) = N_Ident id2.
Proof.
  intros Hs Hname Hpre.
  assert (Hi : IdAssignStmtRhs id t = Z.of_nat (length pre)).
  { unfold IdAssignStmtRhs.
    destruct (lhsIndex_split (Name id) (Lhs t) 0)
      as [[_ Hall]|(pre' & id2' & post' & Hs' & Hname' & Hpre' & Hr)].
    - exfalso; apply (Hall id2); [rewrite Hs; apply in_elt | exact Hname].
    - rewrite Hr; cbn; f_equal.
      rewrite Hs in Hs'.
      destruct (Nat.lt_trichotomy (length pre) (length pre')) as [Hlt|[Heq|Hgt]];
        [exfalso | symmetry; exact Heq | exfalso].
      + apply (Hpre' id2); [|exact Hname].
        assert (Hn : nth_error (pre' ++ Expr_Ident id2' :: post') (length pre)
                     = Some (Expr_Ident id2))
          by (rewrite <- Hs', nth_error_app2, Nat.sub_diag by lia; reflexivity).
        rewrite nth_error_app1 in Hn by exact Hlt.
        eapply nth_error_In; exact Hn.
      + apply (Hpre id2'); [|exact Hname'].
        assert (Hn : nth_error (pre ++ Expr_Ident id2 :: post) (length pre')
                     = Some (Expr_Ident id2'))
          by (rewrite Hs', nth_error_app2, Nat.sub_diag by lia; reflexivity).
        rewrite nth_error_app1 in Hn by exact Hgt.
        eapply nth_error_In; exact Hn. }
  split; [exact Hi|].
  cbn; rewrite Hi.
  replace (0 <=? Z.of_nat (length pre)) with true by (symmetry; apply Z.leb_le; lia).
  rewrite Nat2Z.id, Hs, map_app, app_nth2 by (rewrite length_map; lia).
  now rewrite length_map, Nat.sub_diag.
Qed.

(** On a node that lists the identifier, the switch picks the first identifier
    of the list with the identifier's name. *)
Lemma improved_declares (id : Ident) (node : Node) :
  declares node id ->
  exists id2,
    first_named (Name id) (names_of node) = Some id2 /\
    improved id node = N_Ident id2.
Proof.
  unfold declares; destruct node; cbn [names_of];
    try (intros H; solve [destruct H]).
  - intros [<-|[]]; exists (FuncDecl_Name t); split; [|reflexivity].
    unfold first_named; cbn; now rewrite String.eqb_refl.
  - intros [<-|[]]; exists (TypeSpec_Name t); split; [|reflexivity].
    unfold first_named; cbn; now rewrite String.eqb_refl.
  - intros Hin; apply In_idents in Hin.
    destruct (lhsIndex_split (Name id) (Lhs t) 0)
      as [[_ Hall]|(pre & id2 & post & Hs & Hname & Hpre & _)].
    + exfalso; now apply (Hall id).
    + exists id2; split.
      * rewrite Hs, flat_map_app; cbn.
        apply first_named_first; [exact Hname|].
        intros i Hi; apply Hpre; now apply In_idents.
      * now apply (improved_AssignStmt id t pre post id2).
  - intros Hin; cbn [improved].
    destruct (rangeNames_split (Field_Names t) (Name id) (N_Field t))
      as [[_ Hall]|(pre & id2 & post & Hs & Hname & Hpre & Hr)].
    + exfalso; now apply (Hall id).
    + exists id2; split; [|exact Hr].
      rewrite Hs; now apply first_named_first.
  - intros Hin; cbn [improved].
    destruct (rangeNames_split (ValueSpec_Names t) (Name id) (N_ValueSpec t))
      as [[_ Hall]|(pre & id2 & post & Hs & Hname & Hpre & Hr)].
    + exfalso; now apply (Hall id).
    + exists id2; split; [|exact Hr].
      rewrite Hs; now apply first_named_first.
Qed.

(** C2.  When the resolved declaration node is an assignment statement, the
    result is the span of the left-hand identifier at the index of the queried
    name: the first left-hand identifier with that name. *)
Theorem DeclPosition_AssignStmt
  (E : Env) (Debug : bool) (filename : string) (src : Src) (index : Z)
  (id : Ident) (info' : Info E) (t : AssignStmt)
  (pre post : list Expr) (id2 : Ident)
  (Hres : resolves E filename src index id info' (N_AssignStmt t))
  (Hlhs : Lhs t = pre ++ Expr_Ident id2 :: post)
  (Hname : Name id2 = Name id)
  (Hpre : forall id3, In (Expr_Ident id3) pre -> Name id3 <> Name id) :
  IdAssignStmtRhs id t = Z.of_nat (length pre) /\
  Run_outcome (DeclPosition E Debug filename src index)
  = Returned (Some (FSet_Position E info' (Ident_Pos id2)),
              Some (FSet_Position E info' (Ident_End id2)), None).
Proof.
  destruct (improved_AssignStmt id t pre post id2 Hlhs Hname Hpre) as [Hi Himp].
  split; [exact Hi|].
  rewrite DeclPosition_outcome, (outcome_of_resolves _ _ _ _ _ _ _ Hres), Himp.
  reflexivity.
Qed.

(** C3, as amended.  When the index lands on an identifier that its resolved
    declaration node lists, the call succeeds with the span of the first
    identifier of that list carrying the queried name.  That identifier is
    the queried one whenever no other identifier of the list has its name,
    and always for a function or type declaration, whose result is the name
    identifier and not the declaration. *)
Theorem DeclPosition_declaring_occurrence
  (E : Env) (Debug : bool) (filename : string) (src : Src) (index : Z)
  (id : Ident) (info' : Info E) (node : Node)
  (Hres : resolves E filename src index id info' node)
  (Hdecl : declares node id) :
  exists id2,
    first_named (Name id) (names_of node) = Some id2 /\
    Run_outcome (DeclPosition E Debug filename src index)
    = Returned (Some (FSet_Position E info' (Ident_Pos id2)),
                Some (FSet_Position E info' (Ident_End id2)), None) /\
    ((forall id3, In id3 (names_of node) -> Name id3 = Name id -> id3 = id) ->
     id2 = id) /\
    match node with
    | N_FuncDecl _ | N_TypeSpec _ => id2 = id
    | _ => True
    end.
Proof.
  destruct (improved_declares id node Hdecl) as (id2 & Hfirst & Himp).
  exists id2; split; [exact Hfirst|]; split; [|split].
  - rewrite DeclPosition_outcome, (outcome_of_resolves _ _ _ _ _ _ _ Hres), Himp.
    reflexivity.
  - intros Huniq; apply first_named_In in Hfirst as [Hin Hn]; now apply Huniq.
  - unfold declares in Hdecl.
    destruct node; try exact I; cbn in Hdecl, Himp;
      destruct Hdecl as [<-|[]]; congruence.
Qed.

(** C7.  When the resolved declaration node is a field or a value spec, the
    result is the span of the identifier of its name list whose text is the
    queried name, the first of them in the order of the list. *)
Theorem DeclPosition_name_list
  (E : Env) (Debug : bool) (filename : string) (src : Src) (index : Z)
  (id : Ident) (info' : Info E) (node : Node)
  (pre post : list Ident) (id2 : Ident)
  (Hres : resolves E filename src index id info' node)
  (Hkind : lists_names node = true)
  (Hnames : names_of node = pre ++ id2 :: post)
  (Hname : Name id2 = Name id)
  (Hpre : forall i, In i pre -> Name i <> Name id) :
  Run_outcome (DeclPosition E Debug filename src index)
  = Returned (Some (FSet_Position E info' (Ident_Pos id2)),
              Some (FSet_Position E info' (Ident_End id2)), None).
Proof.
  rewrite DeclPosition_outcome, (outcome_of_resolves _ _ _ _ _ _ _ Hres).
  destruct node; try discriminate Hkind; cbn in Hnames; cbn [improved];
    rewrite Hnames, (rangeNames_first pre post id2 (Name id) _ Hname Hpre);
    reflexivity.
Qed.

(** C8.  The type switch is total: it goes on with a node, never panics and
    leaves the store alone.  The node is the declaration node itself or one
    of the identifiers it lists; a node of a kind without a case stays as it
    is; the left-hand list is indexed only at a non-negative index, which is
    within the list; a field or value spec with no identifier of the queried
    name stays whole. *)
Theorem improve_total (E : Env) (id : Ident) (node : Node) (s : Body.St E) :
  exists n,
    improve E id node s = (s, Body.Next n) /\
    (n = node \/ exists id2, n = N_Ident id2 /\ In id2 (names_of node)) /\
    (handled node = false -> n = node) /\
    (forall t, node = N_AssignStmt t ->
       (IdAssignStmtRhs id t < 0 -> n = node) /\
       (0 <= IdAssignStmtRhs id t ->
        exists e, nth_error (Lhs t) (Z.to_nat (IdAssignStmtRhs id t)) = Some e /\
                  n = Expr_Node e)) /\
    (lists_names node = true ->
     (forall i, In i (names_of node) -> Name i <> Name id) -> n = node).
Proof.
  exists (improved id node); split; [apply improve_improved|].
  split; [|split; [|split]].
  - destruct node; cbn [improved names_of]; try (now left).
    + right; exists (FuncDecl_Name t); split; [reflexivity | now left].
    + right; exists (TypeSpec_Name t); split; [reflexivity | now left].
    + destruct (0 <=? IdAssignStmtRhs id t) eqn:Hge; [|now left].
      apply Z.leb_le in Hge.
      destruct (IdAssignStmtRhs_in_range id t Hge)
        as (pre & id2 & post & Hs & Hname & Hpre & _ & _).
      destruct (improved_AssignStmt id t pre post id2 Hs Hname Hpre) as [_ Himp].
      cbn [improved] in Himp; apply Z.leb_le in Hge; rewrite Hge in Himp.
      right; exists id2; split; [exact Himp|].
      apply In_idents; rewrite Hs; apply in_elt.
    + destruct (rangeNames_split (Field_Names t) (Name id) (N_Field t))
        as [[Hr _]|(pre & id2 & post & Hs & _ & _ & Hr)]; [now left|].
      right; exists id2; split; [exact Hr | rewrite Hs; apply in_elt].
    + destruct (rangeNames_split (ValueSpec_Names t) (Name id) (N_ValueSpec t))
        as [[Hr _]|(pre & id2 & post & Hs & _ & _ & Hr)]; [now left|].
      right; exists id2; split; [exact Hr | rewrite Hs; apply in_elt].
  - destruct node; cbn; intros; try reflexivity; discriminate.
  - intros t ->; cbn [improved]; split.
    + intros Hneg.
      replace (0 <=? IdAssignStmtRhs id t) with false; [reflexivity|].
      symmetry; apply Z.leb_gt; exact Hneg.
    + intros Hge.
      destruct (IdAssignStmtRhs_in_range id t Hge)
        as (pre & id2 & post & Hs & Hname & Hpre & _ & Hnth).
      exists (Expr_Ident id2); split; [exact Hnth|].
      destruct (improved_AssignStmt id t pre post id2 Hs Hname Hpre) as [_ Himp].
      exact Himp.
  - intros Hkind Hnone.
    destruct node; try discriminate Hkind; cbn [improved names_of] in *.
    + destruct (rangeNames_split (Field_Names t) (Name id) (N_Field t))
        as [[Hr _]|(pre & id2 & post & Hs & Hname & _ & _)]; [exact Hr|].
      exfalso; apply (Hnone id2); [rewrite Hs; apply in_elt | exact Hname].
    + destruct (rangeNames_split (ValueSpec_Names t) (Name id) (N_ValueSpec t))
        as [[Hr _]|(pre & id2 & post & Hs & Hname & _ & _)]; [exact Hr|].
      exfalso; apply (Hnone id2); [rewrite Hs; apply in_elt | exact Hname].
Qed.

(** ** Clamping the index *)

Lemma clampOffset_idempotent (tf : TokenFile) (offset : Z) :
  0 <= Size tf -> clampOffset tf (clampOffset tf offset) = clampOffset tf offset.
Proof.
  intros Hsize; unfold clampOffset.
  destruct (Z.ltb_spec offset 0) as [H0|H0].
  - cbn; destruct (Z.ltb_spec (Size tf) 0); [lia | reflexivity].
  - destruct (Z.ltb_spec (Size tf) offset) as [H1|H1].
    + destruct (Z.ltb_spec (Size tf) 0); [lia|].
      destruct (Z.ltb_spec (Size tf) (Size tf)); [lia | reflexivity].
    + destruct (Z.ltb_spec offset 0); [lia|].
      destruct (Z.ltb_spec (Size tf) offset); [lia | reflexivity].
Qed.

(** C6.  The clamping step always gives a position of the file: its offset is
    the index itself when that is an offset of the file, 0 for a negative
    index and the size for an index past the end, no valid offset being
    nearer; the query at an index out of range is the query at the boundary
    it is clamped to. *)
Theorem SafeOffsetPos_clamps
  (E : Env) (Debug : bool) (filename : string) (src : Src) (index : Z)
  (info : Info E) (astFile : File) (tokenFile : TokenFile)
  (Hparse : parses E filename src info astFile)
  (Hfile : FSet_File E info (Package astFile) = Some tokenFile)
  (Hsize : 0 <= Size tokenFile) :
  let offset := SafeOffsetPos tokenFile index - Base tokenFile in
  0 <= offset <= Size tokenFile /\
  (0 <= index <= Size tokenFile -> offset = index) /\
  (index < 0 -> offset = 0) /\
  (Size tokenFile < index -> offset = Size tokenFile) /\
  (forall v, 0 <= v <= Size tokenFile -> Z.abs (index - offset) <= Z.abs (index - v)) /\
  Run_outcome (DeclPosition E Debug filename src index)
  = Run_outcome (DeclPosition E Debug filename src offset).
Proof.
  cbn zeta.
  replace (SafeOffsetPos tokenFile index - Base tokenFile)
    with (clampOffset tokenFile index) by (unfold SafeOffsetPos; lia).
  assert (Hclamp :
    0 <= clampOffset tokenFile index <= Size tokenFile /\
    (0 <= index <= Size tokenFile -> clampOffset tokenFile index = index) /\
    (index < 0 -> clampOffset tokenFile index = 0) /\
    (Size tokenFile < index -> clampOffset tokenFile index = Size tokenFile) /\
    (forall v, 0 <= v <= Size tokenFile ->
       Z.abs (index - clampOffset tokenFile index) <= Z.abs (index - v))).
  { unfold clampOffset.
    destruct (Z.ltb_spec index 0); [|destruct (Z.ltb_spec (Size tokenFile) index)];
      repeat split; intros; lia. }
  destruct Hclamp as (H1 & H2 & H3 & H4 & H5).
  repeat (split; [assumption|]).
  rewrite !DeclPosition_outcome; unfold outcome_of, parses in *.
  rewrite Hparse; cbn; rewrite Hfile.
  unfold SafeOffsetPos; now rewrite clampOffset_idempotent.
Qed.

(** ** The fixture at work *)

Section FixtureRuns.
Import Fixture.
Local Open Scope string_scope.

Let at_ (off : Z) (col : Z) : Position := mkPosition "p.go" off 1 col.

(** A call of [F] resolves to the name in [func F]. *)
Example run_call_site :
  Run_outcome (query text_func 69) = Returned (Some (at_ 41 42), Some (at_ 42 43), None).
Proof. reflexivity. Qed.

(** A use of [d] resolves to the second left-hand name of [c, d := a, b]. *)
Example run_short_assignment :
  Run_outcome (query text_func 74) = Returned (Some (at_ 58 59), Some (at_ 59 60), None).
Proof. reflexivity. Qed.

(** A use of parameter [a] resolves to its name in the parameter list. *)
Example run_parameter :
  Run_outcome (query text_func 63) = Returned (Some (at_ 43 44), Some (at_ 44 45), None).
Proof. reflexivity. Qed.

(** The second [x] of [var x, x int]: the span returned is the first one. *)
Example run_repeated_name :
  Run_outcome (query text_vars 18) = Returned (Some (at_ 15 16), Some (at_ 16 17), None).
Proof. reflexivity. Qed.

(** Blank between [var] and [x]: the node there is the declaration. *)
Example run_blank :
  Run_outcome (query text_vars 14) = failed "index not at an id node".
Proof. reflexivity. Qed.

(** A predeclared name has no declaration in the file. *)
Example run_predeclared :
  Run_outcome (query text_vars 20) = failed "id decl not found".
Proof. reflexivity. Qed.

Example run_unbalanced :
  query text_broken 3
  = mkRun [Ev_ParseFile "p.go"] (failed "unable to parse file").
Proof. reflexivity. Qed.

(** With a file set that loses the parsed file the call leaves by the
    failure that the taxonomy has no name for. *)
Example run_lost_file :
  Run_outcome (DeclPosition env_lost false "p.go" (Src_string text_vars) 15)
  = failed "unable to get token file"
  /\ taxonomy "unable to get token file" = None.
Proof. split; reflexivity. Qed.

Lemma resolves_vars_second_x :
  resolves env "p.go" (Src_string text_vars) 18 (mkIdent 19 "x") (info_of text_vars)
    (N_ValueSpec (mkValueSpec [mkIdent 16 "x"; mkIdent 19 "x"] 16 24)).
Proof.
  exists (info_of text_vars), (mkFile 1 [N_ValueSpec (mkValueSpec [mkIdent 16 "x"; mkIdent 19 "x"] 16 24)]).
  split; [split; [reflexivity|]|reflexivity].
  exists (mkTokenFile "p.go" 1 23); split; reflexivity.
Defined.

Lemma resolves_func_use_of_c :
  resolves env "p.go" (Src_string text_func) 71 (mkIdent 72 "c") (info_of text_func)
    (N_AssignStmt (mkAssignStmt
      [Expr_Ident (mkIdent 56 "c"); Expr_Ident (mkIdent 59 "d")]
      [Expr_Ident (mkIdent 64 "a"); Expr_Ident (mkIdent 67 "b")] 56 68)).
Proof.
  eexists; eexists.
  split; [split; [reflexivity|]|reflexivity].
  exists (mkTokenFile "p.go" 1 78); split; reflexivity.
Defined.

Lemma resolves_func_name :
  resolves env "p.go" (Src_string text_func) 41 (mkIdent 42 "F") (info_of text_func)
    (N_FuncDecl (mkFuncDecl (mkIdent 42 "F") 37 79)).
Proof.
  eexists; eexists.
  split; [split; [reflexivity|]|reflexivity].
  exists (mkTokenFile "p.go" 1 78); split; reflexivity.
Defined.
End FixtureRuns.

(** ** The statements at concrete queries *)



Lemma DeclPosition_AssignStmt_witness :
  Run_outcome (Fixture.query Fixture.text_func 71)
  = Returned (Some (mkPosition "p.go" 55 1 56), Some (mkPosition "p.go" 56 1 57), None).
Proof.
  refine (proj2 (DeclPosition_AssignStmt Fixture.env false "p.go"
    (Src_string Fixture.text_func) 71 (mkIdent 72 "c") (Fixture.info_of Fixture.text_func)
    _ [] [Expr_Ident (mkIdent 59 "d")] (mkIdent 56 "c")
    resolves_func_use_of_c _ _ _)).
  - reflexivity.
  - reflexivity.
  - intros id3 [].
Defined.

Lemma DeclPosition_declaring_occurrence_witness :
  exists id2,
    first_named "F" [mkIdent 42 "F"] = Some id2 /\
    Run_outcome (Fixture.query Fixture.text_func 41)
    = Returned (Some (FSet_Position Fixture.env (Fixture.info_of Fixture.text_func) (Ident_Pos id2)),
                Some (FSet_Position Fixture.env (Fixture.info_of Fixture.text_func) (Ident_End id2)),
                None) /\
    id2 = mkIdent 42 "F".
Proof.
  destruct (DeclPosition_declaring_occurrence Fixture.env false "p.go"
    (Src_string Fixture.text_func) 41 (mkIdent 42 "F") (Fixture.info_of Fixture.text_func)
    _ resolves_func_name (or_introl eq_refl)) as (id2 & H1 & H2 & _ & H4).
  exists id2; repeat split; assumption.
Defined.

Lemma DeclPosition_name_list_witness :
  Run_outcome (Fixture.query Fixture.text_vars 18)
  = Returned (Some (mkPosition "p.go" 15 1 16), Some (mkPosition "p.go" 16 1 17), None).
Proof.
  refine (DeclPosition_name_list Fixture.env false "p.go"
    (Src_string Fixture.text_vars) 18 (mkIdent 19 "x") (Fixture.info_of Fixture.text_vars)
    _ [] [mkIdent 19 "x"] (mkIdent 16 "x")
    resolves_vars_second_x _ _ _ _).
  - reflexivity.
  - reflexivity.
  - reflexivity.
  - intros i [].
Defined.

Lemma SafeOffsetPos_clamps_witness :
  SafeOffsetPos (mkTokenFile "p.go" 1 23) 500 - 1 = 23 /\
  SafeOffsetPos (mkTokenFile "p.go" 1 23) (-5) - 1 = 0 /\
  Run_outcome (Fixture.query Fixture.text_vars (-5))
  = Run_outcome (Fixture.query Fixture.text_vars 0).
Proof.
  assert (Hp : parses Fixture.env "p.go" (Src_string Fixture.text_vars)
                 (Fixture.info_of Fixture.text_vars)
                 (mkFile 1 [N_ValueSpec (mkValueSpec [mkIdent 16 "x"; mkIdent 19 "x"] 16 24)]))
    by reflexivity.
  assert (Hf : FSet_File Fixture.env (Fixture.info_of Fixture.text_vars) 1
               = Some (mkTokenFile "p.go" 1 23)) by reflexivity.
  assert (Hs : 0 <= Size (mkTokenFile "p.go" 1 23)) by (cbn; lia).
  split; [|split].
  - apply (SafeOffsetPos_clamps Fixture.env false "p.go" (Src_string Fixture.text_vars)
             500 _ _ _ Hp Hf Hs); cbn; lia.
  - apply (SafeOffsetPos_clamps Fixture.env false "p.go" (Src_string Fixture.text_vars)
             (-5) _ _ _ Hp Hf Hs); cbn; lia.
  - apply (SafeOffsetPos_clamps Fixture.env false "p.go" (Src_string Fixture.text_vars)
             (-5) _ _ _ Hp Hf Hs).
Defined.

(** The query on the second [x] of [var x, x int] lands on an identifier at
    its own declaration site and returns the span of the first [x]. *)
Lemma self_resolution_counterexample :
  ~ self_resolution Fixture.env "p.go" (Src_string Fixture.text_vars) 18.
Proof.
  intros H.
  specialize (H false (mkIdent 19 "x") _ _ resolves_vars_second_x
                (or_intror (or_introl eq_refl))).
  vm_compute in H; discriminate H.
Qed.

(** ** More on the query *)

(** The body in the monad makes the calls of [trace_of]. *)
Lemma DeclPosition_trace (E : Env) (Debug : bool) (filename : string) (src : Src) (index : Z) :
  Run_trace (DeclPosition E Debug filename src index) = trace_of E Debug filename src index.
Proof.
  unfold DeclPosition, DeclPosition_body, trace_of, parsed, added.
  unfold Body.bind, Body.update, Body.read, Body.emit, Body.nonnil, Body.ret, Body.return_.
  cbn.
  destruct (AddPathFile E (NewInfo E) filename) as [i0 fname]; cbn.
  destruct (ParseFile E i0 fname src) as [i1 [astFile|]]; cbn; [|reflexivity].
  destruct Debug; cbn.
  all: destruct (FSet_File E i1 (Package astFile)) as [tf|]; cbn; [|reflexivity].
  all: destruct (PosNode E i1 (SafeOffsetPos tf index)) as [[id| | | | | |]|]; cbn;
    try reflexivity.
  all: destruct (ResolveDecl E i1 _ id) as [i2 [node|]]; cbn; [|reflexivity].
  all: rewrite improve_improved; reflexivity.
Qed.

(** X1.  A call succeeds exactly when the index lands on an identifier that
    the resolver finds a declaration for. *)
Theorem DeclPosition_succeeds_iff
  (E : Env) (Debug : bool) (filename : string) (src : Src) (index : Z) :
  (exists r, Run_outcome (DeclPosition E Debug filename src index) = Returned r /\
             succeeded r) <->
  exists id info' node, resolves E filename src index id info' node.
Proof.
  rewrite DeclPosition_outcome; split.
  - intros (r & Ho & posp & endp & ->); revert Ho; unfold outcome_of.
    destruct (snd (parsed E filename src)) as [astFile|] eqn:Hp; [|discriminate].
    destruct (FSet_File E _ (Package astFile)) as [tf|] eqn:Htf; [|discriminate].
    destruct (PosNode E _ (SafeOffsetPos tf index)) as [n|] eqn:Hn; [|discriminate].
    destruct n; try discriminate.
    destruct (ResolveDecl E _ _ id) as [i2 [node|]] eqn:Hr; [|discriminate].
    intros _; exists id, i2, node.
    exists (fst (parsed E filename src)), astFile; split; [|exact Hr].
    split; [now apply parsed_parses | now exists tf].
  - intros (id & info' & node & Hres).
    rewrite (outcome_of_resolves _ _ _ _ _ _ _ Hres).
    eexists; split; [reflexivity|]; eexists; eexists; reflexivity.
Qed.

(** X2.  Each of the three remaining failures has one cause: no token file
    for the parsed tree, no node at the clamped index, no declaration for
    the located identifier. *)
Theorem DeclPosition_failure_causes
  (E : Env) (Debug : bool) (filename : string) (src : Src) (index : Z) :
  let o := Run_outcome (DeclPosition E Debug filename src index) in
  (o = failed "unable to get token file" <->
   exists info astFile,
     parses E filename src info astFile /\
     FSet_File E info (Package astFile) = None) /\
  (o = failed "index node not found" <->
   exists info astFile tokenFile,
     parses E filename src info astFile /\
     FSet_File E info (Package astFile) = Some tokenFile /\
     PosNode E info (SafeOffsetPos tokenFile index) = None) /\
  (o = failed "id decl not found" <->
   exists info astFile id info',
     locates E filename src index info astFile (N_Ident id) /\
     ResolveDecl E info (NewResolver (PosFilePath E info (Package astFile)) id) id
     = (info', None)).
Proof.
  cbn zeta; rewrite DeclPosition_outcome; unfold outcome_of.
  split; [|split]; split.
  - destruct (snd (parsed E filename src)) as [astFile|] eqn:Hp; [|discriminate].
    destruct (FSet_File E _ (Package astFile)) as [tf|] eqn:Htf.
    + destruct (PosNode E _ (SafeOffsetPos tf index)) as [n|]; [|discriminate].
      destruct n; try discriminate.
      destruct (ResolveDecl E _ _ id) as [i2 [node|]]; discriminate.
    + intros _; exists (fst (parsed E filename src)), astFile.
      split; [now apply parsed_parses | exact Htf].
  - intros (info & astFile & Hp & Htf); unfold parses in Hp.
    rewrite Hp; cbn; now rewrite Htf.
  - destruct (snd (parsed E filename src)) as [astFile|] eqn:Hp; [|discriminate].
    destruct (FSet_File E _ (Package astFile)) as [tf|] eqn:Htf; [|discriminate].
    destruct (PosNode E _ (SafeOffsetPos tf index)) as [n|] eqn:Hn.
    + destruct n; try discriminate.
      destruct (ResolveDecl E _ _ id) as [i2 [node|]]; discriminate.
    + intros _; exists (fst (parsed E filename src)), astFile, tf.
      split; [now apply parsed_parses | split; assumption].
  - intros (info & astFile & tf & Hp & Htf & Hn); unfold parses in Hp.
    rewrite Hp; cbn; now rewrite Htf, Hn.
  - destruct (snd (parsed E filename src)) as [astFile|] eqn:Hp; [|discriminate].
    destruct (FSet_File E _ (Package astFile)) as [tf|] eqn:Htf; [|discriminate].
    destruct (PosNode E _ (SafeOffsetPos tf index)) as [n|] eqn:Hn; [|discriminate].
    destruct n; try discriminate.
    destruct (ResolveDecl E _ _ id) as [i2 [node|]] eqn:Hr; [discriminate|].
    intros _; exists (fst (parsed E filename src)), astFile, id, i2.
    split; [|exact Hr].
    split; [now apply parsed_parses | now exists tf].
  - intros (info & astFile & id & info' & [Hp (tf & Htf & Hn)] & Hr); unfold parses in Hp.
    rewrite Hp; cbn; now rewrite Htf, Hn, Hr.
Qed.

Lemma resolver_calls_trace_of
  (E : Env) (Debug : bool) (filename : string) (src : Src) (index : Z) :
  resolver_calls (trace_of E Debug filename src index) =
  match snd (parsed E filename src) with
  | None => []
  | Some astFile =>
      match FSet_File E (fst (parsed E filename src)) (Package astFile) with
      | None => []
      | Some tokenFile =>
          match PosNode E (fst (parsed E filename src)) (SafeOffsetPos tokenFile index) with
          | Some (N_Ident id) => [id]
          | _ => []
          end
      end
  end.
Proof.
  unfold trace_of, resolver_calls; cbn [flat_map app].
  destruct (snd (parsed E filename src)) as [astFile|]; [|reflexivity].
  rewrite flat_map_app.
  destruct Debug; cbn [flat_map app].
  all: destruct (FSet_File E _ (Package astFile)) as [tf|]; [|reflexivity].
  all: cbn [flat_map app].
  all: destruct (PosNode E _ (SafeOffsetPos tf index)) as [[id| | | | | |]|];
    try reflexivity.
  all: cbn [flat_map app].
  all: destruct (ResolveDecl E _ _ id) as [i2 [node|]]; reflexivity.
Qed.

Lemma result_lines_trace_of
  (E : Env) (Debug : bool) (filename : string) (src : Src) (index : Z) :
  result_lines (trace_of E Debug filename src index) =
  match outcome_of E filename src index with
  | Returned (Some posp, Some _, None) => [posp]
  | _ => []
  end.
Proof.
  unfold trace_of, outcome_of, result_lines; cbn [flat_map app].
  destruct (snd (parsed E filename src)) as [astFile|]; [|reflexivity].
  rewrite flat_map_app.
  destruct Debug; cbn [flat_map app].
  all: destruct (FSet_File E _ (Package astFile)) as [tf|]; [|reflexivity].
  all: cbn [flat_map app].
  all: destruct (PosNode E _ (SafeOffsetPos tf index)) as [[id| | | | | |]|];
    try reflexivity.
  all: cbn [flat_map app].
  all: destruct (ResolveDecl E _ _ id) as [i2 [node|]]; reflexivity.
Qed.

(** X3.  The resolver is called at most once in a call, and exactly on the
    identifier located at the clamped index: never on a node of another kind
    and never when parsing or locating failed. *)
Theorem DeclPosition_resolver_calls
  (E : Env) (Debug : bool) (filename : string) (src : Src) (index : Z) :
  let calls := resolver_calls (Run_trace (DeclPosition E Debug filename src index)) in
  (length calls <= 1)%nat /\
  forall id, In id calls <->
    exists info astFile, locates E filename src index info astFile (N_Ident id).
Proof.
  cbn zeta; rewrite DeclPosition_trace, resolver_calls_trace_of.
  assert (Hinv : forall info af n,
    locates E filename src index info af n ->
    exists tf,
      snd (parsed E filename src) = Some af /\
      FSet_File E (fst (parsed E filename src)) (Package af) = Some tf /\
      PosNode E (fst (parsed E filename src)) (SafeOffsetPos tf index) = Some n).
  { intros info af n [Hpa (tf & Htf & Hn)]; unfold parses in Hpa.
    exists tf; rewrite Hpa; cbn; auto. }
  destruct (snd (parsed E filename src)) as [astFile|] eqn:Hp.
  2:{ cbn; split; [lia|]; intros id; split; [intros []|].
      intros (info & af & Hloc).
      destruct (Hinv _ _ _ Hloc) as (tf & H1 & _); discriminate. }
  destruct (FSet_File E _ (Package astFile)) as [tf|] eqn:Htf.
  2:{ cbn; split; [lia|]; intros id; split; [intros []|].
      intros (info & af & Hloc).
      destruct (Hinv _ _ _ Hloc) as (tf & [= <-] & H2 & _); congruence. }
  destruct (PosNode E _ (SafeOffsetPos tf index)) as [n|] eqn:Hn.
  2:{ cbn; split; [lia|]; intros id; split; [intros []|].
      intros (info & af & Hloc).
      destruct (Hinv _ _ _ Hloc) as (tf' & [= <-] & H2 & H3); congruence. }
  destruct n;
    try (cbn; split; [lia|]; intros id0; split; [intros []|];
         intros (info & af & Hloc);
         destruct (Hinv _ _ _ Hloc) as (tf' & [= <-] & H2 & H3); congruence).
  cbn; split; [lia|]; intros id0; split.
  - intros [<-|[]]; exists (fst (parsed E filename src)), astFile.
    split; [now apply parsed_parses | now exists tf].
  - intros (info & af & Hloc).
    destruct (Hinv _ _ _ Hloc) as (tf' & [= <-] & H2 & H3); left; congruence.
Qed.

(** X4.  The result line is logged exactly when the call succeeds, once, and
    with the start position that is returned; a failed call logs none. *)
Theorem DeclPosition_result_line
  (E : Env) (Debug : bool) (filename : string) (src : Src) (index : Z) :
  let run := DeclPosition E Debug filename src index in
  (forall posp, In posp (result_lines (Run_trace run)) <->
     exists endp, Run_outcome run = Returned (Some posp, Some endp, None)) /\
  (length (result_lines (Run_trace run)) <= 1)%nat.
Proof.
  cbn zeta; rewrite DeclPosition_trace, result_lines_trace_of, DeclPosition_outcome.
  destruct (outcome_of_cases E filename src index)
    as [H|[H|[H|[H|[H|(info & n & H)]]]]]; cbn zeta in H; rewrite H;
    unfold failed, span; cbn; (split; [|lia]); intros posp; split;
    try (intros H0; solve [destruct H0]); try (intros (endp & He); discriminate).
  - intros [<-|[]]; eexists; reflexivity.
  - intros (endp & He); left; congruence.
Qed.

(** The type switch leaves the node or gives an identifier. *)
Lemma improved_cases (id : Ident) (node : Node) :
  improved id node = node \/ exists id2, improved id node = N_Ident id2.
Proof.
  destruct node; cbn [improved]; try (now left).
  - right; now exists (FuncDecl_Name t).
  - right; now exists (TypeSpec_Name t).
  - destruct (0 <=? IdAssignStmtRhs id t) eqn:Hge; [|now left].
    apply Z.leb_le in Hge.
    destruct (IdAssignStmtRhs_in_range id t Hge)
      as (pre & id2 & post & Hs & Hname & Hpre & _ & _).
    destruct (improved_AssignStmt id t pre post id2 Hs Hname Hpre) as [_ Himp].
    cbn [improved] in Himp; apply Z.leb_le in Hge; rewrite Hge in Himp.
    right; now exists id2.
  - destruct (rangeNames_split (Field_Names t) (Name id) (N_Field t))
      as [[Hr _]|(pre & id2 & post & _ & _ & _ & Hr)]; [now left|].
    right; now exists id2.
  - destruct (rangeNames_split (ValueSpec_Names t) (Name id) (N_ValueSpec t))
      as [[Hr _]|(pre & id2 & post & _ & _ & _ & Hr)]; [now left|].
    right; now exists id2.
Qed.

(** X5.  The type switch applied to its own result leaves it as it is:
    refining a refined node changes nothing. *)
Theorem improve_idempotent (E : Env) (id : Ident) (node : Node) (s : Body.St E) :
  exists n,
    improve E id node s = (s, Body.Next n) /\
    improve E id n s = (s, Body.Next n).
Proof.
  exists (improved id node); rewrite !improve_improved; split; [reflexivity|].
  do 2 f_equal.
  destruct (improved_cases id node) as [H|(id2 & H)]; rewrite H.
  - exact H.
  - reflexivity.
Qed.

(** ** The Wayland window: teardown *)

Module WaylandFacts.
Import Wayland.
Local Open Scope string_scope.
Local Open Scope list_scope.
Local Open Scope Z_scope.
Local Open Scope wl_scope.

Lemma wp_ret {A} (a : A) (s : State) (Q : A -> State -> Prop) :
  Q a s -> wp (ret a) s Q.
Proof. intros H; exists a, s; split; [reflexivity | exact H]. Qed.

Lemma wp_bind {A B} (m : M A) (k : A -> M B) (s : State) (Q : B -> State -> Prop) :
  wp m s (fun a s' => wp (k a) s' Q) -> wp (bind m k) s Q.
Proof.
  intros (a & s' & Hm & b & s'' & Hk & HQ).
  exists b, s''; split; [|exact HQ].
  unfold bind; rewrite Hm; exact Hk.
Qed.

Lemma wp_get (s : State) (Q : Window -> State -> Prop) :
  Q (self s) s -> wp get s Q.
Proof. intros H; exists (self s), s; split; [reflexivity | exact H]. Qed.

Lemma wp_modify (f : Window -> Window) (s : State) (Q : unit -> State -> Prop) :
  Q tt (mkState (f (self s)) (history s)) -> wp (modify f) s Q.
Proof. intros H; eexists; eexists; split; [reflexivity | exact H]. Qed.

Lemma wp_record (e : Event) (s : State) (Q : unit -> State -> Prop) :
  Q tt (mkState (self s) (history s ++ [e])) -> wp (record e) s Q.
Proof. intros H; eexists; eexists; split; [reflexivity | exact H]. Qed.

Lemma wp_invoke (W : World) (c : Call) (s : State) (Q : Answer -> State -> Prop) :
  calm (lib W) ->
  (forall a, Q a (mkState (self s) (history s ++ [Called c (Returns a)]))) ->
  wp (invoke W c) s Q.
Proof.
  intros Hcalm H; destruct (Hcalm (history s) c) as [a Ha].
  exists a; eexists; split; [|apply H].
  unfold invoke; rewrite Ha; reflexivity.
Qed.

Lemma calls_app (a b : list Event) : calls (a ++ b) = calls a ++ calls b.
Proof. apply flat_map_app. Qed.

(** Logging an error leaves the window and adds its line. *)
Lemma wp_log_err (line : string) (e : option string) (s : State)
  (Q : unit -> State -> Prop) :
  (forall s', self s' = self s -> history s' = history s ++ logged line e -> Q tt s') ->
  wp (log_err line e) s Q.
Proof.
  intros H; destruct e as [msg|]; cbn.
  - apply wp_record, H; reflexivity.
  - apply wp_ret, H; [reflexivity | cbn; now rewrite app_nil_r].
Qed.

Lemma set_slot_None_id (sl : Slot) (w : Window) :
  slot sl w = None -> set_slot sl None w = w.
Proof. destruct sl, w; cbn; intros ->; reflexivity. Qed.

Lemma wp_attempt (W : World) (sl : Slot) (method line : string) (s : State)
  (Q : unit -> State -> Prop) :
  calm (lib W) ->
  (forall a s', self s' = self s ->
     history s' =
     history s ++ Called (mkCall method (slot sl (self s)) []) (Returns a) ::
     logged line (err a) ->
     Q tt s') ->
  wp (attempt W sl method line) s Q.
Proof.
  intros Hcalm H; unfold attempt.
  apply wp_bind, wp_get, wp_bind, wp_invoke; [exact Hcalm|]; intros a.
  apply wp_log_err; intros s' Hself Hhist; cbn [self history] in Hself, Hhist.
  apply (H a); [exact Hself|].
  rewrite Hhist, <- app_assoc; reflexivity.
Qed.

(** One block of [Close]. *)
Lemma wp_release (W : World) (sl : Slot) (method line : string) (s : State)
  (Q : unit -> State -> Prop) :
  calm (lib W) ->
  (forall a s', self s' = set_slot sl None (self s) ->
     history s' = history s ++ released method line (slot sl (self s)) a ->
     Q tt s') ->
  wp (when_set sl (drop W sl method line)) s Q.
Proof.
  intros Hcalm H; unfold when_set.
  apply wp_bind, wp_get.
  destruct (slot sl (self s)) as [p|] eqn:Hp.
  - unfold drop; apply wp_bind, wp_attempt; [exact Hcalm|].
    intros a s' Hself Hhist; apply wp_modify, (H a); cbn [self history].
    + now rewrite Hself.
    + now rewrite Hhist, Hp.
  - apply wp_ret, (H (mkAnswer None "" None)).
    + symmetry; now apply set_slot_None_id.
    + cbn; now rewrite app_nil_r.
Qed.

(** Facts on a chain of states rewritten into the goal. *)
Ltac chain :=
  repeat match goal with
         | H : history ?x = _ |- context [history ?x] => rewrite H
         | H : self ?x = _ |- context [self ?x] => rewrite H
         end.

(** What a run of [Close] does, for a library that does not panic. *)
Lemma Close_run (W : World) (s : State) :
  calm (lib W) ->
  wp (Close W) s (fun _ s' =>
    self s' = closed (self s) /\
    exists a actx aclose,
      history s' = history s ++ Close_history (self s) a actx aclose).
Proof.
  intros Hcalm; unfold Close, releasePointer, releaseKeyboard.
  apply wp_bind, wp_release; [exact Hcalm|]; intros a1 s1 Hs1 Hh1.
  apply wp_bind, wp_release; [exact Hcalm|]; intros a2 s2 Hs2 Hh2.
  apply wp_bind, wp_release; [exact Hcalm|]; intros a3 s3 Hs3 Hh3.
  apply wp_bind, wp_release; [exact Hcalm|]; intros a4 s4 Hs4 Hh4.
  apply wp_bind, wp_release; [exact Hcalm|]; intros a5 s5 Hs5 Hh5.
  apply wp_bind, wp_release; [exact Hcalm|]; intros a6 s6 Hs6 Hh6.
  apply wp_bind, wp_release; [exact Hcalm|]; intros a7 s7 Hs7 Hh7.
  apply wp_bind, wp_release; [exact Hcalm|]; intros a8 s8 Hs8 Hh8.
  apply wp_bind, wp_release; [exact Hcalm|]; intros a9 s9 Hs9 Hh9.
  apply wp_bind, wp_release; [exact Hcalm|]; intros a10 s10 Hs10 Hh10.
  apply wp_bind, wp_release; [exact Hcalm|]; intros a11 s11 Hs11 Hh11.
  apply wp_bind; unfold when_set; apply wp_bind, wp_get.
  assert (Hd : forall (Q : unit -> State -> Prop),
    (forall a s', self s' = self s11 ->
       history s' = history s11 ++
         released "client.Display.Destroy" "unable to destroy wl_display:"
           (display (self s11)) a -> Q tt s') ->
    wp (match slot S_display (self s11) with
        | Some _ => attempt W S_display "client.Display.Destroy" "unable to destroy wl_display:"
        | None => ret tt
        end) s11 Q).
  { intros Q HQ; cbn [slot].
    destruct (display (self s11)) as [p|] eqn:Hp.
    - apply wp_attempt; [exact Hcalm|]; intros a sd Hself Hhist.
      apply (HQ a); [exact Hself|]; cbn [slot] in Hhist; now rewrite Hhist, Hp.
    - apply wp_ret, (HQ (mkAnswer None "" None));
        [reflexivity | cbn; now rewrite app_nil_r]. }
  apply Hd; intros a12 s12 Hs12 Hh12.
  apply wp_bind, wp_get, wp_bind, wp_invoke; [exact Hcalm|]; intros actx.
  apply wp_bind, wp_invoke; [exact Hcalm|]; intros aclose.
  apply wp_log_err; cbn [self history]; intros sf Hsf Hhf.
  split.
  - chain; destruct (self s); reflexivity.
  - exists (fun sl =>
              match sl with
              | S_pointer => a1 | S_keyboard => a2 | S_cursorTheme => a3
              | S_xdgTopLevel => a4 | S_xdgSurface => a5 | S_surface => a6
              | S_seat => a7 | S_xdgWmBase => a8 | S_shm => a9
              | S_compositor => a10 | S_registry => a11 | S_display => a12
              end), actx, aclose.
    rewrite Hhf, Hh12, Hh11, Hh10, Hh9, Hh8, Hh7, Hh6, Hh5, Hh4, Hh3, Hh2, Hh1.
    rewrite Hs12, Hs11, Hs10, Hs9, Hs8, Hs7, Hs6, Hs5, Hs4, Hs3, Hs2, Hs1.
    unfold Close_history.
    destruct (self s); cbn [slot set_slot pointer keyboard cursorTheme xdgTopLevel
      xdgSurface surface seat xdgWmBase shm compositor registry display].
    rewrite <- !app_assoc; reflexivity.
Qed.

Lemma desktop_calm : calm desktop.
Proof.
  intros h c; unfold desktop.
  destruct (String.eqb (callee c) "os.Getenv"); [eexists; reflexivity|].
  destruct (String.eqb (callee c) "os.File.Name"); eexists; reflexivity.
Defined.

(** X6.  With a library that does not panic, [Close] returns with every
    object of the window let go and its field nil, except the display, whose
    field keeps the object; size, images, exit flag and seat version stay. *)
Theorem Close_lets_go (W : World) (s : State) (Hcalm : calm (lib W)) :
  exists s',
    Close W s = (s', Next tt) /\
    (forall sl, sl <> S_display -> slot sl (self s') = None) /\
    display (self s') = display (self s) /\
    exit (self s') = exit (self s) /\
    width (self s') = width (self s) /\
    height (self s') = height (self s) /\
    pImage (self s') = pImage (self s) /\
    frame (self s') = frame (self s) /\
    seatVersion (self s') = seatVersion (self s).
Proof.
  destruct (Close_run W s Hcalm) as ([] & s' & Hrun & Hself & _).
  exists s'; split; [exact Hrun|]; rewrite Hself.
  split; [|repeat split].
  intros sl Hsl; destruct sl; try reflexivity; congruence.
Qed.

(** X7.  With a library that does not panic, [Close] releases each object
    the window holds once, in the order pointer, keyboard, cursor theme,
    toplevel, xdg surface, surface, seat, wm base, shm, compositor, registry,
    then destroys the display if there is one, then asks the display for its
    context, also when the display is nil, and closes the context that call
    returned.  The error of a release or of the closing is logged with the
    line of its block, and stops nothing. *)
Theorem Close_calls (W : World) (s : State) (Hcalm : calm (lib W)) :
  exists s' a actx aclose,
    Close W s = (s', Next tt) /\
    history s' = history s ++ Close_history (self s) a actx aclose.
Proof.
  destruct (Close_run W s Hcalm) as ([] & s' & Hrun & _ & a & actx & aclose & Hhist).
  now exists s', a, actx, aclose.
Qed.

(** X8.  A second [Close] releases nothing a second time but the display:
    it destroys the display again, asks it for its context, closes the
    context that call returned, and leaves the window as the first one left
    it. *)
Theorem Close_twice (W : World) (s : State) (Hcalm : calm (lib W)) :
  exists s1 s2 adestroy actx aclose,
    Close W s = (s1, Next tt) /\
    Close W s1 = (s2, Next tt) /\
    self s2 = self s1 /\
    history s2 =
    history s1 ++
    released "client.Display.Destroy" "unable to destroy wl_display:"
      (display (self s)) adestroy ++
    [Called (mkCall "client.Display.Context" (display (self s)) []) (Returns actx);
     Called (mkCall "client.Context.Close" (value actx) []) (Returns aclose)] ++
    logged "unable to close wayland context:" (err aclose).
Proof.
  destruct (Close_run W s Hcalm) as ([] & s1 & Hrun1 & Hself1 & _).
  destruct (Close_run W s1 Hcalm)
    as ([] & s2 & Hrun2 & Hself2 & a & actx & aclose & Hhist2).
  exists s1, s2, (a S_display), actx, aclose; repeat split; try assumption.
  - rewrite Hself2, Hself1; reflexivity.
  - rewrite Hhist2, Hself1; reflexivity.
Qed.

Lemma Close_lets_go_witness :
  exists s',
    Close desk (mkState seated []) = (s', Next tt) /\
    pointer (self s') = None /\ seat (self s') = None /\
    display (self s') = Some 1%nat.
Proof.
  destruct (Close_lets_go desk (mkState seated []) desktop_calm)
    as (s' & Hrun & Hslots & Hd & _).
  exists s'; split; [exact Hrun|].
  split; [apply (Hslots S_pointer); discriminate|].
  split; [apply (Hslots S_seat); discriminate | exact Hd].
Defined.

Lemma Close_calls_witness :
  exists s' a actx aclose,
    Close desk (mkState seated []) = (s', Next tt) /\
    history s' = [] ++ Close_history seated a actx aclose.
Proof.
  exact (Close_calls desk (mkState seated []) desktop_calm).
Defined.

Lemma Close_twice_witness :
  exists s1 s2 adestroy actx aclose,
    Close desk (mkState seated []) = (s1, Next tt) /\
    Close desk s1 = (s2, Next tt) /\
    self s2 = self s1 /\
    history s2 =
    history s1 ++
    released "client.Display.Destroy" "unable to destroy wl_display:" (Some 1%nat) adestroy ++
    [Called (mkCall "client.Display.Context" (Some 1%nat) []) (Returns actx);
     Called (mkCall "client.Context.Close" (value actx) []) (Returns aclose)] ++
    logged "unable to close wayland context:" (err aclose).
Proof.
  exact (Close_twice desk (mkState seated []) desktop_calm).
Defined.

(** On the example window: the pointer, the seat and the display are let go,
    and the context closed is the one the display gave. *)
Example Close_on_desk :
  map (fun e => match e with
                | Called c (Returns a) => (callee c, receiver c, value a)
                | _ => (""%string, None, None)
                end)
      (history (fst (Close desk (mkState seated [])))) =
  [("client.Pointer.Release", Some 7%nat, Some 0%nat);
   ("client.Seat.Release", Some 5%nat, Some 1%nat);
   ("client.Display.Destroy", Some 1%nat, Some 2%nat);
   ("client.Display.Context", Some 1%nat, Some 3%nat);
   ("client.Context.Close", Some 3%nat, Some 4%nat)].
Proof. vm_compute; reflexivity. Qed.

(** ** The Wayland window: handlers *)

(** Running a statement by cases on the replies of the library. *)
Ltac run_with defs :=
  defs;
  unfold bind, invoke, get, modify, log_err, println, record, fatal, panic, ret, defer;
  cbn;
  repeat (match goal with
          | |- context [lib ?W ?h ?c] => destruct (lib W h c) as [?|?]
          | |- context [match err ?a with _ => _ end] => destruct (err a)
          end; cbn).

(** The calls of a history that grew by single events. *)
Ltac calls_tail :=
  rewrite ?calls_app; cbn [calls flat_map app]; rewrite <- ?app_assoc;
  cbn [app].

(** X9.  [tempfileCreate] never returns a file together with an error and
    never ends the process.  When it returns without an error, its calls
    were: the runtime directory read, and not empty; the file created in the
    directory that was read; that file truncated to the size asked; its name
    asked for, and the name it gave removed, last; none of them failed, and
    the file returned is the one that was created.  When it returns an
    error, that is the error of the last call it made, or the fixed one for
    an empty directory, and nothing is called after it.  The window is not
    touched. *)
Theorem tempfileCreate_result (W : World) (size : Z) (s : State) :
  match tempfileCreate W size s with
  | (s', Next (file, None)) =>
      exists adir acreated atrunc aname aremove,
        history s' =
        history s ++
        [Called (mkCall "os.Getenv" None [A_str "XDG_RUNTIME_DIR"]) (Returns adir);
         Called (mkCall "os.CreateTemp" None [A_str (text adir); A_str "wl_shm_go_*"])
           (Returns acreated);
         Called (mkCall "os.File.Truncate" (value acreated) [A_int size]) (Returns atrunc);
         Called (mkCall "os.File.Name" (value acreated) []) (Returns aname);
         Called (mkCall "os.Remove" None [A_str (text aname)]) (Returns aremove)] /\
        text adir <> "" /\
        err acreated = None /\ err atrunc = None /\ err aremove = None /\
        file = value acreated
  | (s', Next (Some _, Some _)) => False
  | (s', Next (None, Some e)) =>
      exists c a,
        last (history s') (Logged "" []) = Called c (Returns a) /\
        (err a = Some e \/
         (c = mkCall "os.Getenv" None [A_str "XDG_RUNTIME_DIR"] /\ text a = "" /\
          e = "XDG_RUNTIME_DIR is not defined in env"))
  | (s', Exit _) => False
  | (s', Panic _) => True
  end /\
  self (fst (tempfileCreate W size s)) = self s.
Proof.
  unfold tempfileCreate, bind, invoke, ret; cbn [self history fst snd].
  destruct (lib W (history s) _) as [dir|?]; cbn [self history fst snd]; [|now split].
  destruct (String.eqb_spec (text dir) ""%string) as [He|Hne];
    cbn [self history fst snd].
  { split; [|reflexivity]; eexists; eexists; split; [apply last_last|].
    right; repeat split; exact He. }
  destruct (lib W _ _) as [created|?]; cbn [self history fst snd]; [|now split].
  destruct (err created) eqn:Hcreated; cbn [self history fst snd].
  { split; [|reflexivity]; eexists; eexists; split; [apply last_last|].
    left; exact Hcreated. }
  destruct (lib W _ _) as [r|?]; cbn [self history fst snd]; [|now split].
  destruct (err r) eqn:Hr; cbn [self history fst snd].
  { split; [|reflexivity]; eexists; eexists; split; [apply last_last|].
    left; exact Hr. }
  destruct (lib W _ _) as [name|?]; cbn [self history fst snd]; [|now split].
  destruct (lib W _ _) as [r2|?]; cbn [self history fst snd]; [|now split].
  destruct (err r2) eqn:Hr2; cbn [self history fst snd].
  { split; [|reflexivity]; eexists; eexists; split; [apply last_last|].
    left; exact Hr2. }
  split; [|reflexivity].
  assert (Hgoal : exists adir acreated atrunc aname aremove,
    ((((history s ++
      [Called (mkCall "os.Getenv" None [A_str "XDG_RUNTIME_DIR"]) (Returns dir)]) ++
      [Called (mkCall "os.CreateTemp" None [A_str (text dir); A_str "wl_shm_go_*"])
         (Returns created)]) ++
      [Called (mkCall "os.File.Truncate" (value created) [A_int size]) (Returns r)]) ++
      [Called (mkCall "os.File.Name" (value created) []) (Returns name)]) ++
      [Called (mkCall "os.Remove" None [A_str (text name)]) (Returns r2)] =
    history s ++
    [Called (mkCall "os.Getenv" None [A_str "XDG_RUNTIME_DIR"]) (Returns adir);
     Called (mkCall "os.CreateTemp" None [A_str (text adir); A_str "wl_shm_go_*"])
       (Returns acreated);
     Called (mkCall "os.File.Truncate" (value acreated) [A_int size]) (Returns atrunc);
     Called (mkCall "os.File.Name" (value acreated) []) (Returns aname);
     Called (mkCall "os.Remove" None [A_str (text aname)]) (Returns aremove)] /\
    text adir <> ""%string /\
    err acreated = None /\ err atrunc = None /\ err aremove = None /\
    value created = value acreated).
  { exists dir, created, r, name, r2.
    split; [rewrite <- !app_assoc; reflexivity|].
    repeat split; assumption. }
  revert Hgoal; destruct (value created); intros Hgoal; exact Hgoal.
Qed.


(** X11.  A configure event handled a second time changes nothing: after
    the handler has returned, the same event leaves the state as it is. *)
Theorem handleToplevelConfigure_idempotent (W : World) (Width Height : Z) (s : State) :
  match handleToplevelConfigure W Width Height s with
  | (s', Next _) => handleToplevelConfigure W Width Height s' = (s', Next tt)
  | _ => True
  end.
Proof.
  unfold handleToplevelConfigure.
  destruct ((Width =? 0) || (Height =? 0)); [reflexivity|].
  unfold bind, get, modify, ret, panic; cbn [self history fst snd].
  destruct ((Width =? width (self s)) && (Height =? height (self s))) eqn:Hsame.
  - now rewrite Hsame.
  - destruct (Resize W (uint Width) (uint Height) (pImage (self s))) as [img|];
      cbn [self history fst snd]; [|exact I].
    destruct s as [w h]; destruct w; cbn.
    now rewrite !Z.eqb_refl.
Qed.

Lemma have_one (Capabilities : Z) :
  0 <= Capabilities < 2 ^ 32 -> have Capabilities 1 = negb (Capabilities =? 0).
Proof.
  intros H; unfold have, uint32.
  rewrite (Z.mod_small 1) by lia.
  rewrite Z.mul_1_r, Z.mod_small by lia; reflexivity.
Qed.

(** X12.  [handleSeatCapabilities] never attaches a device the window does
    not hold already: a nil pointer stays nil, and the handler starts by
    calling [Release] on that nil pointer; a nil keyboard stays nil. *)
Theorem handleSeatCapabilities_never_attaches (W : World) (Capabilities : Z) (s : State) :
  let s' := fst (handleSeatCapabilities W Capabilities s) in
  (pointer (self s) = None ->
   pointer (self s') = None /\
   exists rest,
     calls (history s') =
     calls (history s) ++ mkCall "client.Pointer.Release" None [] :: rest) /\
  (keyboard (self s) = None -> keyboard (self s') = None).
Proof.
  cbn zeta; split.
  - intros Hp.
    destruct s as [w h]; destruct w; cbn in Hp; subst.
    unfold handleSeatCapabilities.
    destruct (have Capabilities (SeatCapabilityPointer W)),
             (have Capabilities (SeatCapabilityKeyboard W)), keyboard0;
      run_with ltac:(unfold releasePointer, releaseKeyboard, attachPointer, attachKeyboard,
                     drop, attempt);
      (split; [reflexivity|]); calls_tail; eexists; reflexivity.
  - intros Hk.
    destruct s as [w h]; destruct w; cbn in Hk; subst.
    unfold handleSeatCapabilities.
    destruct (have Capabilities (SeatCapabilityPointer W)),
             (have Capabilities (SeatCapabilityKeyboard W)), pointer0;
      run_with ltac:(unfold releasePointer, releaseKeyboard, attachPointer, attachKeyboard,
                     drop, attempt);
      reflexivity.
Qed.

(** X13.  The capability test multiplies where a mask would be tested: with
    the pointer capability at 1, a window that holds a pointer asks the seat
    for a new one on every mask that is not zero, whatever its bits, and
    releases the pointer on the zero mask. *)
Theorem handleSeatCapabilities_test
  (W : World) (Capabilities : Z) (s : State) (p : Proxy)
  (Hconst : SeatCapabilityPointer W = 1)
  (Hmask : 0 <= Capabilities < 2 ^ 32)
  (Hheld : pointer (self s) = Some p) :
  exists rest,
    calls (history (fst (handleSeatCapabilities W Capabilities s))) =
    calls (history s) ++
    (if Capabilities =? 0
     then mkCall "client.Pointer.Release" (Some p) []
     else mkCall "client.Seat.GetPointer" (seat (self s)) []) :: rest.
Proof.
  destruct s as [w h]; destruct w; cbn in Hheld; subst.
  unfold handleSeatCapabilities.
  rewrite Hconst, (have_one _ Hmask).
  destruct (Capabilities =? 0),
           (have Capabilities (SeatCapabilityKeyboard W)), keyboard0;
    run_with ltac:(unfold releasePointer, releaseKeyboard, attachPointer, attachKeyboard,
                   drop, attempt);
    calls_tail; eexists; reflexivity.
Qed.

Lemma handleSeatCapabilities_test_witness :
  exists rest,
    calls (history (fst (handleSeatCapabilities desk 2 (mkState seated [])))) =
    mkCall "client.Seat.GetPointer" (Some 5%nat) [] :: rest.
Proof.
  refine (handleSeatCapabilities_test desk 2 (mkState seated []) 7%nat _ _ _).
  - reflexivity.
  - lia.
  - reflexivity.
Defined.

(** X14.  [handleRegistryGlobal] touches only the field of the interface
    announced: every other object of the window stays, the seat version
    changes for [wl_seat] alone, size, images and exit flag stay, and an
    interface that is none of the four leaves window and history alone. *)
Theorem handleRegistryGlobal_frame
  (W : World) (Name : Z) (Interface : string) (Version : Z) (s : State) :
  let s' := fst (handleRegistryGlobal W Name Interface Version s) in
  (forall sl, global_slot Interface <> Some sl -> slot sl (self s') = slot sl (self s)) /\
  (Interface <> "wl_seat" -> seatVersion (self s') = seatVersion (self s)) /\
  (exit (self s') = exit (self s) /\
   width (self s') = width (self s) /\
   height (self s') = height (self s) /\
   pImage (self s') = pImage (self s) /\
   frame (self s') = frame (self s)) /\
  (global_slot Interface = None -> s' = s).
Proof.
  cbn zeta; unfold handleRegistryGlobal, global_slot.
  destruct s as [w h]; destruct w.
  destruct (String.eqb_spec Interface "wl_compositor") as [H1|H1];
    [|destruct (String.eqb_spec Interface "wl_shm") as [H2|H2];
      [|destruct (String.eqb_spec Interface "xdg_wm_base") as [H3|H3];
        [|destruct (String.eqb_spec Interface "wl_seat") as [H4|H4]]]].
  all: run_with ltac:(unfold bindGlobal).
  all: split; [intros sl Hsl; destruct sl;
               first [reflexivity | exfalso; apply Hsl; reflexivity]|].
  all: split; [intros Hne; first [reflexivity | contradiction]|].
  all: split; [repeat split|].
  all: intros Hnone; first [reflexivity | discriminate Hnone].
Qed.

(** Running a statement by cases on the replies of the library, the cases
    kept as equations. *)
Ltac run_keeping defs :=
  defs;
  unfold bind, invoke, get, modify, log_err, println, record, fatal, panic, ret, defer;
  cbn;
  repeat (match goal with
          | |- context [lib ?W ?h ?c] => destruct (lib W h c) as [?|?]
          | |- context [match err ?a with _ => _ end] => destruct (err a) eqn:?
          | |- context [String.eqb (text ?a) ""] => destruct (String.eqb (text a) "") eqn:?
          end; cbn).

Ltac use_err :=
  repeat match goal with
         | H : err ?a = _ |- context [err ?a] => rewrite H
         end.

(** X15.  [handleKeyboardKeymap] maps the descriptor it is handed, private
    from seat version 7 on and shared below, and always closes the
    descriptor, once and as its last call: after removing the mapping that
    [unix.Mmap] returned when it returned one without an error, and with no
    unmapping when mapping failed or panicked.  It never ends the process
    and does not touch the window. *)
Theorem handleKeyboardKeymap_closes (W : World) (Fd Size : Z) (s : State) :
  let run := handleKeyboardKeymap W Fd Size s in
  (forall c, snd run <> Exit c) /\
  self (fst run) = self s /\
  exists r mid rc,
    history (fst run) =
    history s ++
    Called (mkCall "unix.Mmap" None
              [A_int Fd; A_int 0; A_int Size; A_str "unix.PROT_READ";
               A_str (if 7 <=? seatVersion (self s)
                      then "unix.MAP_PRIVATE" else "unix.MAP_SHARED")]) r ::
    mid ++ [Called (mkCall "unix.Close" None [A_int Fd]) rc] /\
    calls mid = unmapped r.
Proof.
  cbn zeta; unfold handleKeyboardKeymap.
  destruct s as [w h]; destruct w.
  run_keeping idtac.
  all: split; [intros c; discriminate|].
  all: split; [reflexivity|].
  all: eexists.
  all: first
    [ exists (@nil Event); eexists; split;
      [rewrite <- ?app_assoc; reflexivity | cbn; use_err; reflexivity]
    | eexists [Logged _ _]; eexists; split;
      [rewrite <- ?app_assoc; reflexivity | cbn; use_err; reflexivity]
    | eexists [Logged _ _; Called _ _]; eexists; split;
      [rewrite <- ?app_assoc; reflexivity | cbn; use_err; reflexivity] ].
Qed.

(** Multiplying after wrapping is multiplying before wrapping. *)
Lemma int32_mul (a b : Z) : int32 (int32 a * b) = int32 (a * b).
Proof.
  unfold int32; f_equal.
  pose proof (Z.div_mod (a + 2 ^ 31) (2 ^ 32) ltac:(lia)) as Hd.
  replace (((a + 2 ^ 31) mod 2 ^ 32 - 2 ^ 31) * b + 2 ^ 31)
    with (a * b + 2 ^ 31 + (- ((a + 2 ^ 31) / 2 ^ 32) * b) * 2 ^ 32) by nia.
  apply Z_mod_plus_full.
Qed.

Lemma int32_small (x : Z) : - 2 ^ 31 <= x < 2 ^ 31 -> int32 x = x.
Proof.
  intros H; unfold int32; rewrite Z.mod_small; lia.
Qed.

Lemma drawFrame_size_eq (w h : Z) :
  - 2 ^ 31 <= 4 * w * h < 2 ^ 31 -> int32 (int32 (w * 4) * h) = 4 * w * h.
Proof.
  intros H; rewrite int32_mul, int32_small; lia.
Qed.

(** Running [drawFrame] by cases, the runtime directory and the frame
    included. *)
Ltac run_drawFrame :=
  unfold drawFrame, tempfileCreate;
  unfold bind, invoke, get, modify, log_err, println, record, fatal, panic, ret, defer;
  cbn;
  repeat (match goal with
          | |- context [lib ?W ?h ?c] => destruct (lib W h c) as [?|?]
          | |- context [match err ?a with _ => _ end] => destruct (err a)
          | |- context [String.eqb (text ?a) ""] => destruct (String.eqb (text a) "")
          end; cbn).

Lemma unlogged_app (a b : list Event) : unlogged (a ++ b) = unlogged a ++ unlogged b.
Proof. apply filter_app. Qed.

(** X16.  When [drawFrame] returns, the window had a frame and is left as it
    was, and what the run did, the lines of the logger apart, is, in order:
    the five calls of [tempfileCreate]; the descriptor of the file created
    and its mapping; the descriptor again and a pool on it; a buffer from
    that pool, of the width, height and stride of the window; the pixels of
    the frame copied into the mapping that was returned, and that mapping
    swizzled; the release handler set on the buffer; and then the deferred
    calls, last registered first: that pool destroyed, that mapping removed,
    that file closed.  File, mapping and pool get the same size, none of the
    calls that can fail has failed, and the buffer returned is the one the
    pool gave, which is not destroyed. *)
Theorem drawFrame_returns (W : World) (s : State) :
  match drawFrame W s with
  | (s', Next buf) =>
      let w := self s in
      let stride := int32 (width w * 4) in
      let size := int32 (stride * height w) in
      self s' = w /\
      exists img adir afile atrunc aname aremove afd adata afd' apool abuf
             aswizzle ahandler adestroy aunmap aclose,
        frame w = Some img /\
        unlogged (history s') =
        unlogged (history s) ++
        [Called (mkCall "os.Getenv" None [A_str "XDG_RUNTIME_DIR"]) (Returns adir);
         Called (mkCall "os.CreateTemp" None [A_str (text adir); A_str "wl_shm_go_*"])
           (Returns afile);
         Called (mkCall "os.File.Truncate" (value afile) [A_int size]) (Returns atrunc);
         Called (mkCall "os.File.Name" (value afile) []) (Returns aname);
         Called (mkCall "os.Remove" None [A_str (text aname)]) (Returns aremove);
         Called (mkCall "os.File.Fd" (value afile) []) (Returns afd);
         Called (mkCall "unix.Mmap" None
                   [A_obj (value afd); A_int 0; A_int size;
                    A_str "unix.PROT_READ|unix.PROT_WRITE"; A_str "unix.MAP_SHARED"])
           (Returns adata);
         Called (mkCall "os.File.Fd" (value afile) []) (Returns afd');
         Called (mkCall "client.Shm.CreatePool" (shm w) [A_obj (value afd'); A_int size])
           (Returns apool);
         Called (mkCall "client.ShmPool.CreateBuffer" (value apool)
                   [A_int 0; A_int (width w); A_int (height w); A_int stride;
                    A_str "client.ShmFormatArgb8888"])
           (Returns abuf);
         Copied (value adata) (Pix img);
         Called (mkCall "swizzle.BGRA" None [A_obj (value adata)]) (Returns aswizzle);
         Called (mkCall "client.Buffer.SetReleaseHandler" (value abuf) []) (Returns ahandler);
         Called (mkCall "client.ShmPool.Destroy" (value apool) []) (Returns adestroy);
         Called (mkCall "unix.Munmap" None [A_obj (value adata)]) (Returns aunmap);
         Called (mkCall "os.File.Close" (value afile) []) (Returns aclose)] /\
        text adir <> "" /\
        err afile = None /\ err atrunc = None /\ err aremove = None /\
        err adata = None /\ err apool = None /\ err abuf = None /\
        buf = value abuf
  | _ => True
  end.
Proof.
  destruct s as [w h]; destruct w; destruct frame0 as [img|].
  all: run_keeping ltac:(unfold drawFrame, tempfileCreate); try exact I.
  all: split; [reflexivity|].
  all: do 16 eexists; split; [reflexivity|].
  all: split;
    [rewrite ?unlogged_app; cbn [unlogged filter app]; rewrite <- ?app_assoc;
     cbn [app]; reflexivity|].
  all: split; [apply String.eqb_neq; assumption|].
  all: repeat split; assumption.
Qed.

(** X17.  The size [drawFrame] asks for is the byte count of the frame, four
    bytes a pixel, whenever that count fits int32, also when the stride
    alone does not. *)
Theorem drawFrame_size (W : World) (s : State)
  (Hfits : - 2 ^ 31 <= 4 * width (self s) * height (self s) < 2 ^ 31) :
  match drawFrame W s with
  | (s', Next _) =>
      exists file,
        In (mkCall "os.File.Truncate" file
              [A_int (4 * width (self s) * height (self s))])
           (calls (history s'))
  | _ => True
  end.
Proof.
  pose proof (drawFrame_size_eq (width (self s)) (height (self s)) Hfits) as Hsize.
  destruct s as [w h]; destruct w; destruct frame0 as [img|]; cbn in Hsize.
  all: run_drawFrame; try exact I.
  all: eexists; calls_tail; rewrite Hsize.
  all: apply in_or_app; right; right; right; left; reflexivity.
Qed.

(** X18.  On a window without a frame [drawFrame] never returns a buffer:
    it ends the process on a failure, or panics. *)
Theorem drawFrame_without_frame (W : World) (s : State)
  (Hframe : frame (self s) = None) :
  forall buf, snd (drawFrame W s) <> Next buf.
Proof.
  destruct s as [w h]; destruct w; cbn in Hframe; subst.
  intros buf; run_drawFrame; discriminate.
Qed.

Lemma drawFrame_size_witness :
  exists file,
    In (mkCall "os.File.Truncate" file [A_int 24])
       (calls (history (fst (drawFrame desk (mkState pictured []))))).
Proof.
  assert (Hfits : - 2 ^ 31 <= 4 * width (self (mkState pictured []))
                               * height (self (mkState pictured [])) < 2 ^ 31)
    by (vm_compute; split; [discriminate | reflexivity]).
  generalize (drawFrame_size desk (mkState pictured []) Hfits).
  vm_compute; intros H; exact H.
Defined.

Lemma drawFrame_without_frame_witness :
  snd (drawFrame desk (mkState seated [])) <> Next None.
Proof.
  generalize (drawFrame_without_frame desk (mkState seated []) eq_refl None).
  vm_compute; intros H; exact H.
Defined.

(** Without a frame and with nothing failing, the panic comes after the
    buffer is made; the deferred calls still run. *)
Example drawFrame_panics_after_cleanup :
  let run := drawFrame desk (mkState seated []) in
  snd run = Panic "nil pointer dereference" /\
  map callee (lastn_calls 4 (calls (history (fst run)))) =
  ["client.ShmPool.CreateBuffer"; "client.ShmPool.Destroy"; "unix.Munmap"; "os.File.Close"].
Proof. vm_compute; split; reflexivity. Qed.

(** X19.  When [handleSurfaceConfigure] returns, it has acknowledged the
    configure first and committed the surface last, right after attaching
    at (0, 0) the buffer [drawFrame] made, the one whose release handler was
    set. *)
Theorem handleSurfaceConfigure_order (W : World) (Serial : Z) (s : State) :
  match handleSurfaceConfigure W Serial s with
  | (s', Next _) =>
      exists buf rest,
        rev (calls (history s')) =
        mkCall "client.Surface.Commit" (surface (self s)) [] ::
        mkCall "client.Surface.Attach" (surface (self s)) [A_obj buf; A_int 0; A_int 0] ::
        rest /\
        In (mkCall "client.Buffer.SetReleaseHandler" buf []) rest /\
        exists after,
          calls (history s') =
          calls (history s) ++
          mkCall "xdg_shell.Surface.AckConfigure" (xdgSurface (self s)) [A_int Serial] ::
          after
  | _ => True
  end.
Proof.
  destruct s as [w h]; destruct w; destruct frame0 as [img|].
  all: unfold handleSurfaceConfigure.
  all: run_drawFrame; try exact I.
  all: do 2 eexists; split;
    [calls_tail; rewrite rev_app_distr; cbn [rev app]; reflexivity
    |split; [do 3 right; left; reflexivity | calls_tail; eexists; reflexivity]].
Qed.
End WaylandFacts.
